(** * english_bot: a Messenger webhook relaying chat to a completion API

    Shallow embedding of [app.py] and the properties of its context
    store, dispatcher, usage counter and webhook endpoints.

    A Python [str] is represented by its UTF-8 encoding as a [string];
    substring tests on the encodings agree with substring tests on the
    code points because UTF-8 is self-synchronising. *)

From Stdlib Require Import ZArith String List Bool Lia DecimalString.
From stdpp Require Import base option list gmap strings fin_maps.
Import ListNotations.

Set Warnings "-register-all".

Local Open Scope string_scope.
Local Open Scope list_scope.
Local Open Scope nat_scope.

(** ** Python values met by the handlers *)

(** The value [request.get_json] builds from a JSON document. A [JObj]
    is a Python [dict] listed in insertion order (its keys are distinct,
    as in any dict). Numbers are integers: every path below treats a
    non-integral number like a non-zero integer. *)
Inductive json : Type :=
| JNull
| JBool (b : bool)
| JNum (n : Z)
| JStr (s : string)
| JArr (items : list json)
| JObj (fields : list (string * json)).

(** Truth value of a Python object in [if x], [x and y], [x or y]. *)
Definition truthy (v : json) : bool :=
  match v with
  | JNull => false
  | JBool b => b
  | JNum n => negb (n =? 0)%Z
  | JStr s => negb (String.eqb s "")
  | JArr items => match items with [] => false | _ => true end
  | JObj fields => match fields with [] => false | _ => true end
  end.

(** [d.get(k)] on the items of a dict: [None] when the key is absent. *)
Fixpoint dict_get (k : string) (fields : list (string * json)) : option json :=
  match fields with
  | [] => None
  | (k', v) :: rest => if String.eqb k k' then Some v else dict_get k rest
  end.

(** [v == s] for a string literal [s]. *)
Definition eq_str (v : json) (s : string) : bool :=
  match v with
  | JStr s' => String.eqb s' s
  | _ => false
  end.

(** [k in s] on two [str]: [k] occurs as a contiguous substring. *)
Fixpoint contains (k s : string) : bool :=
  String.prefix k s ||
  match s with
  | EmptyString => false
  | String _ s' => contains k s'
  end.

(** The characters of a [str], as iteration over it yields them. *)
Fixpoint chars (s : string) : list json :=
  match s with
  | EmptyString => []
  | String c s' => JStr (String c EmptyString) :: chars s'
  end.

(** The exceptions the handlers can raise. [NonStringSenderId] is not a
    Python exception: it marks the one situation left outside this
    development, a sender id that is truthy but not a [str] reaching
    the completion path, where the outcome depends on how the storage
    driver coerces the primary key. *)
Inductive exn : Type :=
| AttributeError
| TypeError
| KeyError
| IndexError
| SystemError
| SQLAlchemyError
| RequestException
| APIError
| NonStringSenderId.

Inductive outcome (A : Type) : Type :=
| Ret (a : A)
| Raise (e : exn).
Arguments Ret {A} a.
Arguments Raise {A} e.

(** ** Conversation turns and the bounded deque *)

(** The dict [{"role": role, "content": content}]; it is never mutated
    after its creation, so it is modelled as a value. *)
Record turn : Type := Turn { role : string; content : string }.

Definition CONTEXT_LIMIT : nat := 10.

(** [deque.append] on a deque created with [maxlen]: the item is added
    at the right end and, when the length then exceeds [maxlen], one
    item is removed from the left end. *)
Definition deque_append {A : Type} (maxlen : nat) (items : list A) (x : A) : list A :=
  let items' := items ++ [x] in
  if maxlen <? length items' then drop 1 items' else items'.

(** The specification's [appendTurn] on one context, in its own words:
    if the context would exceed the capacity, the oldest turn is
    discarded first, then the new one is appended. *)
Definition appendTurn {A : Type} (capacity : nat) (ctx : list A) (t : A) : list A :=
  if capacity <=? length ctx then drop 1 ctx ++ [t] else ctx ++ [t].

(** The last [n] items of a list. *)
Definition last_n {A : Type} (n : nat) (l : list A) : list A :=
  drop (length l - n) l.

(** ** The process state *)

Abbreviation loc := positive.

(** Mutable objects: the deques stored in [user_contexts] and the lists
    [get_context] returns. *)
Inductive pyobj : Type :=
| PyDeque (maxlen : nat) (items : list turn)
| PyList (items : list turn).

Definition obj_items (o : pyobj) : list turn :=
  match o with
  | PyDeque _ items => items
  | PyList items => items
  end.

(** A row of the [User] table, keyed by its primary key [id]. *)
Record User : Type := mkUser { created_at : Z; messages : option Z }.

Record quick_reply : Type :=
  QuickReply { content_type : string; title : string; payload : string }.

(** One [requests.post] to the send endpoint. An empty [quick_replies]
    means the key is absent from the message. *)
Record post : Type := Post {
  access_token : string;
  messaging_type : string;
  recipient : json;
  text : string;
  quick_replies : list quick_reply
}.

(** Lines printed on standard output, up to the text of the exception. *)
Inductive log_line : Type :=
| SendError
| OpenAIError.

Record world : Type := World {
  user_contexts : gmap string loc;      (* the global dict, uid -> deque *)
  heap : gmap loc pyobj;                (* the objects it refers to, and returned lists *)
  users : gmap string User;             (* committed rows of the User table *)
  outbox : list post;                   (* posts to the send endpoint, oldest first *)
  completions : list (list turn);       (* messages of each completion call, oldest first *)
  stdout : list log_line;               (* printed lines, oldest first *)
  commits : nat                         (* calls of log_conversation so far *)
}.

(** The state when the module has been loaded. *)
Definition init : world :=
  World ∅ ∅ ∅ [] [] [] 0.

Definition set_contexts (uc : gmap string loc) (h : gmap loc pyobj) (w : world) : world :=
  World uc h (users w) (outbox w) (completions w) (stdout w) (commits w).

Definition set_heap (h : gmap loc pyobj) (w : world) : world :=
  set_contexts (user_contexts w) h w.

Definition set_users (u : gmap string User) (w : world) : world :=
  World (user_contexts w) (heap w) u (outbox w) (completions w) (stdout w) (S (commits w)).

Definition bump_commits (w : world) : world :=
  World (user_contexts w) (heap w) (users w) (outbox w) (completions w) (stdout w) (S (commits w)).

Definition add_post (p : post) (w : world) : world :=
  World (user_contexts w) (heap w) (users w) (outbox w ++ [p]) (completions w) (stdout w) (commits w).

Definition add_completion (msgs : list turn) (w : world) : world :=
  World (user_contexts w) (heap w) (users w) (outbox w) (completions w ++ [msgs]) (stdout w) (commits w).

Definition print (l : log_line) (w : world) : world :=
  World (user_contexts w) (heap w) (users w) (outbox w) (completions w) (stdout w ++ [l]) (commits w).

(** ** Computations: state that survives an exception *)

Definition M (A : Type) : Type := world -> outcome A * world.

Definition ret {A : Type} (a : A) : M A := fun w => (Ret a, w).

Definition raise {A : Type} (e : exn) : M A := fun w => (Raise e, w).

Definition bind {A B : Type} (m : M A) (k : A -> M B) : M B :=
  fun w =>
    match m w with
    | (Ret a, w') => k a w'
    | (Raise e, w') => (Raise e, w')
    end.

Notation "x <- m ;; k" := (bind m (fun x => k))
  (at level 100, m at next level, right associativity).
Notation "m ;;; k" := (bind m (fun _ => k))
  (at level 100, right associativity).

(** [for x in xs: body(x)] over an already evaluated sequence. *)
Fixpoint for_each {A : Type} (body : A -> M unit) (xs : list A) : M unit :=
  match xs with
  | [] => ret tt
  | x :: rest => body x ;;; for_each body rest
  end.

(** The items iteration yields for a Python object: the elements of a
    list, the keys of a dict, the characters of a str; the other
    objects are not iterable. *)
Definition iterate (v : json) : M (list json) :=
  match v with
  | JArr items => ret items
  | JObj fields => ret (map (fun kv => JStr (fst kv)) fields)
  | JStr s => ret (chars s)
  | _ => raise TypeError
  end.

(** [v.get(k, default)]: only a dict has the method. *)
Definition get_method (v : json) (k : string) (default : json) : M json :=
  match v with
  | JObj fields => ret (from_option id default (dict_get k fields))
  | _ => raise AttributeError
  end.

(** [v[k]] for a string [k]. *)
Definition subscript (v : json) (k : string) : M json :=
  match v with
  | JObj fields =>
      match dict_get k fields with
      | Some x => ret x
      | None => raise KeyError
      end
  | _ => raise TypeError
  end.

(** [k in v] for a string [k]. *)
Definition contains_op (k : string) (v : json) : M bool :=
  match v with
  | JObj fields => ret (match dict_get k fields with Some _ => true | None => false end)
  | JArr items => ret (existsb (fun x => eq_str x k) items)
  | JStr s => ret (contains k s)
  | _ => raise TypeError
  end.

(** [try: m except Exception as e: handler(e)]. *)
Definition try_except {A : Type} (m : M A) (handler : exn -> M A) : M A :=
  fun w =>
    match m w with
    | (Ret a, w') => (Ret a, w')
    | (Raise e, w') => handler e w'
    end.

(** What [openai.chat.completions.create] does on one call: it raises,
    or returns a response whose choices each carry a message content
    ([None] for a null content). *)
Inductive completion : Type :=
| ApiFailure
| Completion (choices : list (option string)).

(** What a view returns: a status and a text or JSON body. *)
Inductive http_body : Type :=
| Text (s : string)
| Json (v : json).

Record response : Type := Response { status : nat; payload_of : http_body }.

(** ** The application *)

Section App.

(** Configuration read from the environment at start-up. *)
Variable PAGE_ACCESS_TOKEN : string.
Variable VERIFY_TOKEN : string.
Variable ADMIN_PASSWORD : string.

(** [str.lower] and [str.strip] of the Python runtime. *)
Variable lower : string -> string.
Variable strip : string -> string.

(** The outside world. Each oracle is indexed by the number of calls
    made before, so that any behaviour over time can be represented:
    the completion endpoint, the send endpoint ([true] when the post
    and [raise_for_status] go through, [false] when one of them
    raises [RequestException]), the database session ([true] when
    [get], [add] and [commit] all succeed) and the clock. *)
Variable chat_completions_create : nat -> list turn -> completion.
Variable requests_post : nat -> post -> bool.
Variable session_commit : nat -> bool.
Variable utcnow : nat -> Z.

(** *** Context store *)

(** [user_contexts.setdefault(uid, deque(maxlen=CONTEXT_LIMIT))]. The
    default deque is materialised only when the dict keeps it. *)
Definition setdefault_deque (uid : string) : M loc :=
  fun w =>
    match user_contexts w !! uid with
    | Some d => (Ret d, w)
    | None =>
        let d := fresh (dom (heap w)) in
        (Ret d, set_contexts (<[uid := d]> (user_contexts w))
                             (<[d := PyDeque CONTEXT_LIMIT []]> (heap w)) w)
    end.

(** [d.append(t)]. A reference always designates an object in Python;
    the [SystemError] branch keeps the function total. *)
Definition append (d : loc) (t : turn) : M unit :=
  fun w =>
    match heap w !! d with
    | Some (PyDeque maxlen items) =>
        (Ret tt, set_heap (<[d := PyDeque maxlen (deque_append maxlen items t)]> (heap w)) w)
    | Some (PyList items) =>
        (Ret tt, set_heap (<[d := PyList (items ++ [t])]> (heap w)) w)
    | None => (Raise SystemError, w)
    end.

Definition update_context (uid role content : string) : M unit :=
  d <- setdefault_deque uid ;;
  append d (Turn role content).

(** [list(user_contexts.get(uid, []))]: a new list object holding the
    items of the deque, or no item for an unknown [uid]. *)
Definition get_context (uid : string) : M loc :=
  fun w =>
    let alloc items :=
      let l := fresh (dom (heap w)) in
      (Ret l, set_heap (<[l := PyList items]> (heap w)) w) in
    match user_contexts w !! uid with
    | Some d =>
        match heap w !! d with
        | Some o => alloc (obj_items o)
        | None => (Raise SystemError, w)
        end
    | None => alloc []
    end.

(** The items of the list object at [l]. *)
Definition list_items (l : loc) : M (list turn) :=
  fun w =>
    match heap w !! l with
    | Some o => (Ret (obj_items o), w)
    | None => (Raise SystemError, w)
    end.

(** *** Usage counter *)

Definition log_conversation (uid : string) : M unit :=
  fun w =>
    let n := commits w in
    if session_commit n then
      let user := default (mkUser (utcnow n) None) (users w !! uid) in
      let user' := mkUser (created_at user) (Some (default 0%Z (messages user) + 1)%Z) in
      (Ret tt, set_users (<[uid := user']> (users w)) w)
    else (Raise SQLAlchemyError, bump_commits w).

(** *** Notification sender *)

Definition do_post (p : post) : M unit :=
  fun w =>
    if requests_post (length (outbox w)) p
    then (Ret tt, add_post p w)
    else (Raise RequestException, add_post p w).

Definition send_message (recipient_id : json) (text : string)
    (quick_replies : list quick_reply) : M unit :=
  let p := Post PAGE_ACCESS_TOKEN "RESPONSE" recipient_id text quick_replies in
  try_except (do_post p) (fun _ w => (Ret tt, print SendError w)).

(** *** Completion client *)

Definition system_prompt : turn := Turn "system" "أجب بإيجاز وبأسلوب ودود.".

Definition fallback_reply : string := "عذرًا، تعذّر الردّ حاليًا.".

Definition create (msgs : list turn) : M completion :=
  fun w =>
    (Ret (chat_completions_create (length (completions w)) msgs), add_completion msgs w).

(** [resp.choices[0].message.content.strip()]. *)
Definition first_choice (resp : completion) : M string :=
  match resp with
  | ApiFailure => raise APIError
  | Completion [] => raise IndexError
  | Completion (None :: _) => raise AttributeError
  | Completion (Some c :: _) => ret (strip c)
  end.

Definition ask_gpt (uid user_msg : string) : M string :=
  update_context uid "user" user_msg ;;;
  ctx <- get_context uid ;;
  items <- list_items ctx ;;
  let full_messages := system_prompt :: items in
  bot_reply <- try_except
                 (resp <- create full_messages ;; first_choice resp)
                 (fun _ w => (Ret fallback_reply, print OpenAIError w)) ;;
  update_context uid "assistant" bot_reply ;;;
  ret bot_reply.

(** *** Dispatcher *)

Definition triggers : list string :=
  ["دعم بشري"; "موظف"; "مساعدة حقيقية"; "تحدث إلى شخص"].

Definition human_support_notice : string := "تم تحويلك للدعم البشري، يرجى الانتظار.".

Definition service_info_notice : string := "نقدم خدماتنا على مدار الساعة. كيف أساعدك؟".

Definition reply_options : list quick_reply :=
  [ QuickReply "text" "دعم بشري" "HUMAN_SUPPORT";
    QuickReply "text" "معلومات عن الخدمات" "SERVICE_INFO" ].

(** [any(k in text.lower() for k in [...])]. *)
Definition asks_for_human (text : string) : bool :=
  existsb (fun k => contains k (lower text)) triggers.

Definition process_message (uid text : json) : M unit :=
  match text with
  | JStr t =>
      if asks_for_human t then send_message uid human_support_notice []
      else
        match uid with
        | JStr u =>
            reply <- ask_gpt u t ;;
            log_conversation u ;;;
            send_message uid reply reply_options
        | _ => raise NonStringSenderId
        end
  | _ => raise AttributeError
  end.

(** *** Webhook *)

Definition args_get (k : string) (args : list (string * string)) : option string :=
  snd <$> find (fun kv => String.eqb (fst kv) k) args.

Definition verify_webhook (args : list (string * string)) : response :=
  match args_get "hub.verify_token" args with
  | Some t =>
      if String.eqb t VERIFY_TOKEN
      then Response 200 (Text (default "" (args_get "hub.challenge" args)))
      else Response 403 (Text "Invalid token")
  | None => Response 403 (Text "Invalid token")
  end.

(** The body of the inner loop of [webhook], for one event. *)
Definition handle_event (ev : json) : M unit :=
  sender <- get_method ev "sender" (JObj []) ;;
  uid <- get_method sender "id" JNull ;;
  msg <- get_method ev "message" (JObj []) ;;
  has_text <- (if truthy uid then contains_op "text" msg else ret false) ;;
  if has_text : bool then
    quick <- get_method msg "quick_reply" JNull ;;
    if truthy quick then
      q <- subscript msg "quick_reply" ;;
      payload <- subscript q "payload" ;;
      if eq_str payload "HUMAN_SUPPORT" then send_message uid human_support_notice []
      else if eq_str payload "SERVICE_INFO" then send_message uid service_info_notice []
      else ret tt
    else
      text <- subscript msg "text" ;;
      process_message uid text
  else ret tt.

Definition handle_entry (entry : json) : M unit :=
  evs <- get_method entry "messaging" (JArr []) ;;
  evs <- iterate evs ;;
  for_each handle_event evs.

Definition ok_response : response :=
  Response 200 (Json (JObj [("status", JStr "ok")])).

(** [body] is what [request.get_json(silent=True)] returns: [None]
    when the request carries no parsable JSON document. An unhandled
    exception leaves the handler as [Raise]. *)
Definition webhook (body : option json) : M response :=
  let data := match body with
              | Some v => if truthy v then v else JObj []
              | None => JObj []
              end in
  entries <- get_method data "entry" (JArr []) ;;
  entries <- iterate entries ;;
  for_each handle_entry entries ;;;
  ret ok_response.

(** *** Views of the state used in the statements *)

(** The turns stored for [uid]: the items of its deque, none for a user
    the dict does not know. *)
Definition context_of (w : world) (uid : string) : list turn :=
  match user_contexts w !! uid with
  | Some d => from_option obj_items [] (heap w !! d)
  | None => []
  end.

(** The persisted counter of [uid], [None] when it has no row. *)
Definition counter_of (w : world) (uid : string) : option Z :=
  users w !! uid ≫= messages.

(** The states the program can be in: every user's entry designates a
    deque of capacity [CONTEXT_LIMIT] within its capacity, and no two
    users share a deque. *)
Record wf (w : world) : Prop := {
  wf_deques : ∀ uid d, user_contexts w !! uid = Some d →
    ∃ items, heap w !! d = Some (PyDeque CONTEXT_LIMIT items) ∧
             length items ≤ CONTEXT_LIMIT;
  wf_unshared : ∀ u1 u2 d,
    user_contexts w !! u1 = Some d → user_contexts w !! u2 = Some d → u1 = u2
}.

(** Two states that differ at most in the context store. *)
Definition same_io (w w' : world) : Prop :=
  users w' = users w ∧ outbox w' = outbox w ∧ completions w' = completions w ∧
  stdout w' = stdout w ∧ commits w' = commits w.

(** A run of appends, as [(uid, role, content)] calls in order. *)
Definition appends (calls : list (string * string * string)) : M unit :=
  for_each (fun c => update_context c.1.1 c.1.2 c.2) calls.

(** The turns the calls append for [uid], in call order. *)
Definition turns_for (uid : string) (calls : list (string * string * string)) : list turn :=
  map (fun c => Turn c.1.2 c.2) (filter (fun c => c.1.1 = uid) calls).

(** The handler went from [w] to [w'] posting exactly [ps], in that
    order, and touched neither the context store, nor the user table,
    nor the completion endpoint. *)
Definition only_sent (ps : list post) (w w' : world) : Prop :=
  user_contexts w' = user_contexts w ∧ heap w' = heap w ∧ users w' = users w ∧
  completions w' = completions w ∧ commits w' = commits w ∧
  outbox w' = outbox w ++ ps.

(** The post [send_message] makes for a canned notice. *)
Definition notice (uid : json) (text : string) : post :=
  Post PAGE_ACCESS_TOKEN "RESPONSE" uid text [].

(** The ways a completion call fails: the client raises, the response
    has no choice, or the content of its first choice is null. *)
Inductive failed : completion → Prop :=
| failed_raise : failed ApiFailure
| failed_no_choice : failed (Completion [])
| failed_null_content rest : failed (Completion (None :: rest)).

(** The reply [ask_gpt] ends with for a given outcome of the call. *)
Definition reply_to (resp : completion) : string :=
  match resp with
  | Completion (Some c :: _) => strip c
  | _ => fallback_reply
  end.

(** An event shaped as the platform documents it:
    [{sender: {id}, message: {text?, quick_reply?: {payload}}}], with
    string id and text; the sender, its id and the message may miss. *)
Definition is_str (v : json) : bool :=
  match v with JStr _ => true | _ => false end.

Definition message_ok (msg : json) : bool :=
  match msg with
  | JObj m =>
      match dict_get "text" m with
      | None => true
      | Some t =>
          match dict_get "quick_reply" m with
          | None => is_str t
          | Some quick =>
              if truthy quick then
                match quick with
                | JObj q => match dict_get "payload" q with Some _ => true | None => false end
                | _ => false
                end
              else is_str t
          end
      end
  | _ => false
  end.

Definition event_ok (ev : json) : bool :=
  match ev with
  | JObj e =>
      match dict_get "sender" e with
      | None => true
      | Some (JObj s) =>
          match dict_get "id" s with
          | None => true
          | Some uid =>
              if truthy uid
              then is_str uid && from_option message_ok true (dict_get "message" e)
              else true
          end
      | Some _ => false
      end
  | _ => false
  end.

Definition entry_ok (entry : json) : bool :=
  match entry with
  | JObj e =>
      match dict_get "messaging" e with
      | None => true
      | Some (JArr evs) => forallb event_ok evs
      | Some _ => false
      end
  | _ => false
  end.

(** A request body the endpoint is meant for: no JSON document, a
    falsy one, or an envelope [{entry: [{messaging: [event]}]}]. *)
Definition body_ok (body : option json) : bool :=
  match body with
  | None => true
  | Some v =>
      if truthy v then
        match v with
        | JObj d =>
            match dict_get "entry" d with
            | None => true
            | Some (JArr entries) => forallb entry_ok entries
            | Some _ => false
            end
        | _ => false
        end
      else true
  end.

(** A computation that takes states of the program to states of the
    program, whether it returns or raises. *)
Definition keeps_wf {A : Type} (m : M A) : Prop :=
  ∀ w, wf w → wf (m w).2.

(** The states reached by serving a sequence of posts to the webhook. *)
Definition serve (bodies : list (option json)) (w : world) : world :=
  fold_left (fun w body => (webhook body w).2) bodies w.

(** *** Statistics page *)

(** What the [/stats] view answers: [abort(code)], or the page. *)
Inductive stats_result : Type :=
| Aborted (code : nat)
| Page (html : string).

(** [db.session.query(db.func.sum(User.messages)).scalar()]: the sum
    of the counters that are not NULL, NULL when there is none. *)
Definition sum_messages (rows : gmap string User) : option Z :=
  map_fold (fun _ r acc =>
              match messages r with
              | Some n => Some (n + default 0 acc)%Z
              | None => acc
              end) None rows.

(** The two numbers the page shows: [User.query.count()] and the sum,
    [0] standing for a NULL sum. *)
Definition user_count (w : world) : nat := size (users w).

Definition message_total (w : world) : Z := default 0%Z (sum_messages (users w)).

(** An integer as an f-string prints it. *)
Definition decimal (n : Z) : string := NilZero.string_of_int (Z.to_int n).

Definition stats_page (users : nat) (msgs : Z) : string :=
  ("<h1>👤 المستخدمون: " ++ decimal (Z.of_nat users) ++
   "</h1><h2>📨 الرسائل: " ++ decimal msgs ++ "</h2>")%string.

(** The two queries are taken to succeed. *)
Definition stats (args : list (string * string)) (w : world) : stats_result :=
  match args_get "pwd" args with
  | Some p =>
      if String.eqb p ADMIN_PASSWORD
      then Page (stats_page (user_count w) (message_total w))
      else Aborted 403
  | None => Aborted 403
  end.

(** *** Further views of the state *)

(** A computation whose every run from a state of the program ends in
    a state related to it by [R]. *)
Definition steps_in {A : Type} (R : world → world → Prop) (m : M A) : Prop :=
  ∀ w, wf w → R w (m w).2.

(** A computation that leaves the state as it is. *)
Definition neutral {A : Type} (m : M A) : Prop := ∀ w, (m w).2 = w.

(** The state without what was printed. *)
Definition quiet (w : world) : world :=
  World (user_contexts w) (heap w) (users w) (outbox w) (completions w) [] (commits w).

(** Two computations that, from states equal up to what was printed,
    end the same way in states equal up to what was printed. *)
Definition alike {A : Type} (m m' : M A) : Prop :=
  ∀ w w', quiet w = quiet w' →
    (m w).1 = (m' w').1 ∧ quiet (m w).2 = quiet (m' w').2.

(** A context made of whole exchanges: a user turn, then the
    assistant turn that answers it. *)
Inductive paired : list turn → Prop :=
| paired_nil : paired []
| paired_cons a b l :
    paired l → paired (Turn "user" a :: Turn "assistant" b :: l).

(** The messages of a completion call made on a context of whole
    exchanges: the system prompt, then the last [CONTEXT_LIMIT] turns
    of the context followed by the user's text. *)
Definition call_shape (msgs : list turn) : Prop :=
  ∃ h t, paired h ∧
         msgs = system_prompt :: last_n CONTEXT_LIMIT (h ++ [Turn "user" t]).

(** The posts that carry a completion reply: those with reply options. *)
Definition is_reply (p : post) : bool :=
  match quick_replies p with
  | [] => false
  | _ :: _ => true
  end.

Definition replies_posted (w : world) : nat :=
  length (List.filter is_reply (outbox w)).

(** The counter of a row, [0] for a NULL one, and of a user without a
    row. *)
Definition count_of (r : option User) : Z := default 0%Z (r ≫= messages).

(** The table only grows: every row of [w] is still in [w'], created
    at the same time and with a counter at least as high. *)
Definition table_grows (w w' : world) : Prop :=
  ∀ u r, users w !! u = Some r →
    ∃ r', users w' !! u = Some r' ∧ created_at r' = created_at r ∧
          (count_of (Some r) ≤ count_of (Some r'))%Z.

(** Every row counts at least one message. *)
Definition rows_counted (w : world) : Prop :=
  ∀ u r, users w !! u = Some r → ∃ n, messages r = Some n ∧ (1 ≤ n)%Z.

(** An event that names no sender to answer: no "sender" key, a
    sender object without "id", or an id that is falsy (null, empty
    string, zero, ...). *)
Definition no_usable_sender (e : list (string * json)) : bool :=
  match dict_get "sender" e with
  | None => true
  | Some (JObj s) =>
      match dict_get "id" s with
      | None => true
      | Some uid => negb (truthy uid)
      end
  | Some _ => false
  end.

(** A request that carries no entry: no JSON document, a falsy one, or
    an object whose "entry" is missing or an empty list. *)
Definition carries_nothing (body : option json) : bool :=
  match body with
  | None => true
  | Some v =>
      negb (truthy v) ||
      match v with
      | JObj d =>
          match dict_get "entry" d with
          | None | Some (JArr []) => true
          | Some _ => false
          end
      | _ => false
      end
  end.

(** *** Start-up check *)

Definition required_vars : list string :=
  ["OPENAI_API_KEY"; "PAGE_ACCESS_TOKEN"; "VERIFY_TOKEN"; "ADMIN_PASSWORD"].

(** [not v] for what [os.getenv] returns. *)
Definition unset (v : option string) : bool :=
  match v with
  | Some s => String.eqb s ""
  | None => true
  end.

(** [[k for k, v in required_vars.items() if not v]]. *)
Definition missing (getenv : string → option string) : list string :=
  List.filter (fun k => unset (getenv k)) required_vars.

Record settings : Type := Settings {
  openai_api_key : string;
  page_access_token : string;
  verify_token : string;
  admin_password : string
}.

Definition startup_error (names : list string) : string :=
  ("❌ متغيرات البيئة التالية مفقودة: " ++ String.concat ", " names)%string.

(** The module's start: the message of the [RuntimeError], or the
    four settings. *)
Definition load_settings (getenv : string → option string) : string + settings :=
  match missing getenv with
  | [] => inr (Settings (default "" (getenv "OPENAI_API_KEY"))
                        (default "" (getenv "PAGE_ACCESS_TOKEN"))
                        (default "" (getenv "VERIFY_TOKEN"))
                        (default "" (getenv "ADMIN_PASSWORD")))
  | names => inl (startup_error names)
  end.

(** *** Sample inputs and outside worlds, to instantiate the statements *)

(** [str.lower] and [str.strip] on ASCII. *)
Definition lower_char (c : Ascii.ascii) : Ascii.ascii :=
  let n := Ascii.nat_of_ascii c in
  if (65 <=? n) && (n <=? 90) then Ascii.ascii_of_nat (n + 32) else c.

Fixpoint ascii_lower (s : string) : string :=
  match s with
  | EmptyString => EmptyString
  | String c s' => String (lower_char c) (ascii_lower s')
  end.

Definition is_space (c : Ascii.ascii) : bool :=
  let n := Ascii.nat_of_ascii c in
  (n =? 32) || ((9 <=? n) && (n <=? 13)).

Fixpoint lstrip (l : list Ascii.ascii) : list Ascii.ascii :=
  match l with
  | c :: l' => if is_space c then lstrip l' else l
  | [] => []
  end.

Definition ascii_strip (s : string) : string :=
  string_of_list_ascii (rev (lstrip (rev (lstrip (list_ascii_of_string s))))).

Definition failing_completions : nat → list turn → completion :=
  fun _ _ => ApiFailure.

Definition null_completions : nat → list turn → completion :=
  fun _ _ => Completion [None].

Definition echo_completions : nat → list turn → completion :=
  fun _ msgs => Completion [Some "  ok  "].

Definition refused_posts : nat → post → bool := fun _ _ => false.

Definition accepted_posts : nat → post → bool := fun _ _ => true.

Definition working_session : nat → bool := fun _ => true.

Definition broken_session : nat → bool := fun _ => false.

Definition epoch : nat → Z := fun n => Z.of_nat n.

Definition text_event (uid text : string) : json :=
  JObj [("sender", JObj [("id", JStr uid)]);
        ("message", JObj [("text", JStr text)])].

Definition quick_reply_event (uid text payload : string) : json :=
  JObj [("sender", JObj [("id", JStr uid)]);
        ("message", JObj [("text", JStr text);
                          ("quick_reply", JObj [("payload", JStr payload)])])].

(** A quick reply whose message has no "text" key. *)
Definition bare_quick_reply_event (uid payload : string) : json :=
  JObj [("sender", JObj [("id", JStr uid)]);
        ("message", JObj [("quick_reply", JObj [("payload", JStr payload)])])].

Definition envelope (events : list json) : json :=
  JObj [("entry", JArr [JObj [("messaging", JArr events)]])].

(** A state with a conversation under way for user "1001". *)
Definition talking : world :=
  (appends [("1001", "user", "hello"); ("1001", "assistant", "hi");
            ("2002", "user", "salut")] init).2.

(** An environment with the four required variables. *)
Definition sample_env (k : string) : option string :=
  if String.eqb k "OPENAI_API_KEY" then Some "sk-test"
  else if String.eqb k "PAGE_ACCESS_TOKEN" then Some "page-token"
  else if String.eqb k "VERIFY_TOKEN" then Some "secret"
  else if String.eqb k "ADMIN_PASSWORD" then Some "admin"
  else None.

(** The same with an empty [VERIFY_TOKEN] and no [ADMIN_PASSWORD]. *)
Definition partial_env (k : string) : option string :=
  if String.eqb k "VERIFY_TOKEN" then Some ""
  else if String.eqb k "ADMIN_PASSWORD" then None
  else sample_env k.

(** * Properties *)

(** ** The bounded deque *)

Section Deque.
Context {A : Type}.
Implicit Types (l items : list A) (x : A) (m : nat).

Lemma length_last_n m l : length (last_n m l) = min m (length l).
Proof. unfold last_n. rewrite length_drop. lia. Qed.

Lemma last_n_all m l : length l ≤ m → last_n m l = l.
Proof.
  intros Hle. unfold last_n.
  replace (length l - m) with 0 by lia. reflexivity.
Qed.

Lemma deque_append_length m items x :
  length items ≤ m → length (deque_append m items x) ≤ m.
Proof.
  intros Hle. unfold deque_append.
  destruct (Nat.ltb_spec m (length (items ++ [x]))) as [Hlt | Hge].
  - rewrite length_drop, length_app. simpl. lia.
  - exact Hge.
Qed.

(** A deque fed one item at a time holds the last [m] of them. *)
Lemma deque_append_last_n m l x :
  0 < m → deque_append m (last_n m l) x = last_n m (l ++ [x]).
Proof.
  intros Hm. unfold deque_append, last_n.
  rewrite !length_app, length_drop. simpl.
  destruct (Nat.ltb_spec m (length l - (length l - m) + 1)) as [Hlt | Hge].
  - rewrite <- drop_app_le by lia. rewrite drop_drop. f_equal. lia.
  - rewrite <- drop_app_le by lia. f_equal. lia.
Qed.

(** On a context within its capacity the deque does what the
    specification's [appendTurn] says. *)
Lemma deque_append_appendTurn m items x :
  0 < m → length items ≤ m → deque_append m items x = appendTurn m items x.
Proof.
  intros Hm Hle. unfold deque_append, appendTurn.
  rewrite length_app. simpl.
  destruct (Nat.ltb_spec m (length items + 1)) as [Hlt | Hge];
    destruct (Nat.leb_spec m (length items)) as [Hle' | Hlt']; try lia.
  - destruct items as [| y items]; [simpl in *; lia | reflexivity].
  - reflexivity.
Qed.

Lemma last_n_app_ge m l k : m ≤ length k → last_n m (l ++ k) = last_n m k.
Proof.
  intros Hle. unfold last_n. rewrite length_app.
  rewrite drop_app_ge by lia. f_equal. lia.
Qed.

End Deque.

(** ** The context store *)

Lemma wf_init : wf init.
Proof.
  split; simpl.
  - intros uid d H. by rewrite lookup_empty in H.
  - intros u1 u2 d H. by rewrite lookup_empty in H.
Qed.

Lemma fresh_not_in_heap (w : world) o : heap w !! fresh (dom (heap w)) ≠ Some o.
Proof.
  intros H. apply (is_fresh (dom (heap w))).
  apply elem_of_dom. eauto.
Qed.

Lemma context_of_known w uid d o :
  user_contexts w !! uid = Some d → heap w !! d = Some o →
  context_of w uid = obj_items o.
Proof. intros Hd Ho. unfold context_of. by rewrite Hd, Ho. Qed.

Lemma context_of_unknown w uid :
  user_contexts w !! uid = None → context_of w uid = [].
Proof. intros Hd. unfold context_of. by rewrite Hd. Qed.

Lemma context_of_length w uid : wf w → length (context_of w uid) ≤ CONTEXT_LIMIT.
Proof.
  intros Hwf. unfold context_of.
  destruct (user_contexts w !! uid) as [d |] eqn:Hd; [| simpl; lia].
  destruct (wf_deques w Hwf uid d Hd) as (items & Hitems & Hlen).
  by rewrite Hitems.
Qed.

(** What one append does to the store: the user's context takes the new
    turn as a bounded deque does, and nothing else moves. *)
Lemma update_context_spec uid r c w :
  wf w →
  ∃ w', update_context uid r c w = (Ret tt, w') ∧ wf w' ∧
        context_of w' uid = deque_append CONTEXT_LIMIT (context_of w uid) (Turn r c) ∧
        (∀ u, u ≠ uid → context_of w' u = context_of w u) ∧
        same_io w w' ∧
        (∀ l o, heap w !! l = Some o → (∀ u, user_contexts w !! u ≠ Some l) →
                heap w' !! l = Some o).
Proof.
  intros Hwf. unfold update_context, bind, setdefault_deque, append.
  destruct (user_contexts w !! uid) as [d |] eqn:Hd.
  - destruct (wf_deques w Hwf uid d Hd) as (items & Hitems & Hlen).
    rewrite Hitems. eexists. split; [reflexivity |].
    repeat split; simpl.
    + intros u d' Hu. destruct (decide (d' = d)) as [-> | Hne].
      * eexists. rewrite lookup_insert_eq. split; [reflexivity |].
        by apply deque_append_length.
      * rewrite lookup_insert_ne by done. by apply (wf_deques w Hwf u).
    + apply (wf_unshared w Hwf).
    + unfold context_of. simpl. rewrite Hd, lookup_insert_eq, Hitems. reflexivity.
    + intros u Hu. unfold context_of. simpl.
      destruct (user_contexts w !! u) as [d' |] eqn:Hd'; [| done].
      rewrite lookup_insert_ne; [done |].
      intros Heq. subst. apply Hu. eapply wf_unshared; eauto.
    + intros l o Hl Hfree. rewrite lookup_insert_ne; [done |].
      intros <-. by apply (Hfree uid).
  - simpl. rewrite lookup_insert_eq. eexists. split; [reflexivity |].
    set (d := fresh (dom (heap w))).
    repeat split; simpl.
    + intros u d' Hu. destruct (decide (u = uid)) as [-> | Hne].
      * rewrite lookup_insert_eq in Hu. injection Hu as <-.
        eexists. rewrite lookup_insert_eq. split; [reflexivity |].
        apply deque_append_length. simpl. lia.
      * rewrite lookup_insert_ne in Hu by done.
        destruct (wf_deques w Hwf u d' Hu) as (items & Hitems & Hlen).
        exists items. split; [| done].
        rewrite !lookup_insert_ne; [done | |];
          intros <-; by apply (fresh_not_in_heap w (PyDeque CONTEXT_LIMIT items)).
    + intros u1 u2 d' H1 H2.
      destruct (decide (u1 = uid)) as [-> | Hne1], (decide (u2 = uid)) as [-> | Hne2];
        try done.
      * rewrite lookup_insert_eq in H1. injection H1 as <-.
        rewrite lookup_insert_ne in H2 by done.
        destruct (wf_deques w Hwf u2 d H2) as (items & Hitems & _).
        by destruct (fresh_not_in_heap w (PyDeque CONTEXT_LIMIT items)).
      * rewrite lookup_insert_eq in H2. injection H2 as <-.
        rewrite lookup_insert_ne in H1 by done.
        destruct (wf_deques w Hwf u1 d H1) as (items & Hitems & _).
        by destruct (fresh_not_in_heap w (PyDeque CONTEXT_LIMIT items)).
      * rewrite lookup_insert_ne in H1, H2 by done.
        by apply (wf_unshared w Hwf u1 u2 d').
    + unfold context_of at 1. simpl. rewrite !lookup_insert_eq. simpl.
      by rewrite (context_of_unknown w uid Hd).
    + intros u Hu. unfold context_of. simpl. rewrite lookup_insert_ne by done.
      destruct (user_contexts w !! u) as [d' |] eqn:Hd'; [| done].
      destruct (wf_deques w Hwf u d' Hd') as (items & Hitems & _).
      rewrite !lookup_insert_ne; [done | |];
        intros <-; by apply (fresh_not_in_heap w (PyDeque CONTEXT_LIMIT items)).
    + intros l o Hl _.
      rewrite !lookup_insert_ne; [done | |];
        intros <-; by apply (fresh_not_in_heap w o).
Qed.

Lemma fold_deque_append_last_n {A : Type} m (l ts : list A) :
  0 < m →
  fold_left (deque_append m) ts (last_n m l) = last_n m (l ++ ts).
Proof.
  intros Hm. revert l.
  induction ts as [| t ts IH]; intros l; simpl.
  - by rewrite app_nil_r.
  - rewrite deque_append_last_n by done. rewrite IH.
    by rewrite <- app_assoc.
Qed.

Lemma turns_for_cons uid c calls :
  turns_for uid (c :: calls) =
  if decide (c.1.1 = uid) then Turn c.1.2 c.2 :: turns_for uid calls
  else turns_for uid calls.
Proof.
  unfold turns_for. rewrite filter_cons.
  by destruct (decide (c.1.1 = uid)).
Qed.

(** A run of appends from any state of the program: each user's context
    is fed that user's turns, in call order. *)
Lemma appends_spec calls :
  ∀ w, wf w →
  ∃ w', appends calls w = (Ret tt, w') ∧ wf w' ∧ same_io w w' ∧
        ∀ uid, context_of w' uid =
               fold_left (deque_append CONTEXT_LIMIT) (turns_for uid calls)
                         (context_of w uid).
Proof.
  induction calls as [| c calls IH]; intros w Hwf.
  - exists w. split; [reflexivity | split; [done | split; [by unfold same_io | done]]].
  - destruct (update_context_spec c.1.1 c.1.2 c.2 w Hwf)
      as (w1 & Hrun & Hwf1 & Hsame & Hother & Hio & _).
    destruct (IH w1 Hwf1) as (w2 & Hrun2 & Hwf2 & Hio2 & Hctx).
    exists w2. split; [| split; [done | split]].
    + unfold appends in *. simpl. unfold bind at 1. by rewrite Hrun.
    + unfold same_io in *. destruct Hio as (? & ? & ? & ? & ?).
      destruct Hio2 as (? & ? & ? & ? & ?). repeat split; congruence.
    + intros uid. rewrite Hctx, turns_for_cons.
      destruct (decide (c.1.1 = uid)) as [<- | Hne]; simpl.
      * by rewrite Hsame.
      * by rewrite Hother.
Qed.

(** C1. Whatever appends are made, for whatever users, from the start
    of the process: the context stored for a user is the last 10 of the
    turns appended for that user, in the order of the calls, so it
    never holds more than 10 turns; and one more append behaves as the
    specification's [appendTurn], dropping the oldest turn first when
    the context is at capacity. *)
Theorem context_keeps_last_10 (calls : list (string * string * string)) (uid : string) :
  ∃ w, appends calls init = (Ret tt, w) ∧
       context_of w uid = last_n 10 (turns_for uid calls) ∧
       length (context_of w uid) = min 10 (length (turns_for uid calls)) ∧
       ∀ r c, ∃ w', update_context uid r c w = (Ret tt, w') ∧
                    context_of w' uid = appendTurn 10 (context_of w uid) (Turn r c).
Proof.
  destruct (appends_spec calls init wf_init) as (w & Hrun & Hwf & _ & Hctx).
  assert (Hlast : context_of w uid = last_n 10 (turns_for uid calls)).
  { rewrite Hctx. change (context_of init uid) with (last_n CONTEXT_LIMIT (@nil turn)).
    rewrite fold_deque_append_last_n by (unfold CONTEXT_LIMIT; lia).
    reflexivity. }
  exists w. split; [done | split; [done | split]].
  - rewrite Hlast. apply length_last_n.
  - intros r c.
    destruct (update_context_spec uid r c w Hwf) as (w' & Hrun' & _ & Hnew & _).
    exists w'. split; [done |].
    rewrite Hnew. apply deque_append_appendTurn.
    + unfold CONTEXT_LIMIT. lia.
    + by apply context_of_length.
Qed.

Lemma same_io_refl w : same_io w w.
Proof. by unfold same_io. Qed.

Lemma same_io_trans w1 w2 w3 : same_io w1 w2 → same_io w2 w3 → same_io w1 w3.
Proof.
  unfold same_io. intros (? & ? & ? & ? & ?) (? & ? & ? & ? & ?).
  repeat split; congruence.
Qed.

Lemma appends_wf calls w : wf w → wf (appends calls w).2.
Proof.
  intros Hwf. destruct (appends_spec calls w Hwf) as (w' & Hrun & Hwf' & _).
  by rewrite Hrun.
Qed.

(** Adding an object at a fresh location keeps the state well formed
    and every context as it was. *)
Lemma alloc_list_wf w items :
  wf w → wf (set_heap (<[fresh (dom (heap w)) := PyList items]> (heap w)) w).
Proof.
  intros Hwf. split; simpl.
  - intros uid d Hd.
    destruct (wf_deques w Hwf uid d Hd) as (its & Hits & Hlen).
    exists its. split; [| done].
    rewrite lookup_insert_ne; [done |].
    intros <-. by apply (fresh_not_in_heap w (PyDeque CONTEXT_LIMIT its)).
  - apply (wf_unshared w Hwf).
Qed.

Lemma alloc_list_context w items u :
  wf w →
  context_of (set_heap (<[fresh (dom (heap w)) := PyList items]> (heap w)) w) u =
  context_of w u.
Proof.
  intros Hwf. unfold context_of. simpl.
  destruct (user_contexts w !! u) as [d |] eqn:Hd; [| done].
  destruct (wf_deques w Hwf u d Hd) as (its & Hits & _).
  rewrite lookup_insert_ne; [done |].
  intros <-. by apply (fresh_not_in_heap w (PyDeque CONTEXT_LIMIT its)).
Qed.

Lemma get_context_spec uid w :
  wf w →
  get_context uid w =
  (Ret (fresh (dom (heap w))),
   set_heap (<[fresh (dom (heap w)) := PyList (context_of w uid)]> (heap w)) w).
Proof.
  intros Hwf. unfold get_context, context_of.
  destruct (user_contexts w !! uid) as [d |] eqn:Hd; [| done].
  destruct (wf_deques w Hwf uid d Hd) as (items & Hitems & _).
  by rewrite Hitems.
Qed.

(** C2. For a user no append was made for, [get_context] returns an
    empty list. In every state of the program it returns a list object
    that did not exist before, holding the user's turns in order, none
    for a user the store does not know; the dict, every object that
    existed, the contexts and the rest of the state are as before; and
    the returned list is a snapshot: a later append to the user's
    context leaves it as it was returned. *)
Theorem get_context_snapshot (uid : string) :
  (∀ calls, turns_for uid calls = [] →
     ∃ l w', get_context uid (appends calls init).2 = (Ret l, w') ∧
             heap w' !! l = Some (PyList [])) ∧
  ∀ w, wf w →
  ∃ l w',
    get_context uid w = (Ret l, w') ∧
    heap w !! l = None ∧
    heap w' !! l = Some (PyList (context_of w uid)) ∧
    (user_contexts w !! uid = None → heap w' !! l = Some (PyList [])) ∧
    user_contexts w' = user_contexts w ∧
    (∀ l' o, heap w !! l' = Some o → heap w' !! l' = Some o) ∧
    (∀ u, context_of w' u = context_of w u) ∧
    same_io w w' ∧
    ∀ r c, ∃ w'', update_context uid r c w' = (Ret tt, w'') ∧
                  heap w'' !! l = Some (PyList (context_of w uid)).
Proof.
  split.
  { intros calls Hnone.
    destruct (appends_spec calls init wf_init) as (w & Hrun & Hwf & _ & Hctx).
    rewrite Hrun. simpl. rewrite (get_context_spec uid w Hwf).
    eexists _, _. split; [reflexivity |]. simpl.
    by rewrite lookup_insert_eq, Hctx, Hnone. }
  intros w Hwf. set (l := fresh (dom (heap w))).
  exists l, (set_heap (<[l := PyList (context_of w uid)]> (heap w)) w).
  assert (Hnew : heap w !! l = None).
  { destruct (heap w !! l) as [o |] eqn:Ho; [| done].
    by destruct (fresh_not_in_heap w o). }
  split; [by apply get_context_spec |].
  split; [done |].
  split; [simpl; by rewrite lookup_insert_eq |].
  split.
  { intros Hunknown. simpl.
    by rewrite lookup_insert_eq, (context_of_unknown w uid Hunknown). }
  split; [done |].
  split.
  { intros l' o Ho. simpl. rewrite lookup_insert_ne; [done |]. congruence. }
  split; [intros u; by apply alloc_list_context |].
  split; [by unfold same_io |].
  intros r c.
  pose proof (alloc_list_wf w (context_of w uid) Hwf) as Hwf'.
  fold l in Hwf'.
  destruct (update_context_spec uid r c _ Hwf') as (w'' & Hrun & _ & _ & _ & _ & Hkeep).
  exists w''. split; [done |].
  apply Hkeep.
  - simpl. by rewrite lookup_insert_eq.
  - simpl. intros u Hu.
    destruct (wf_deques w Hwf u l Hu) as (items & Hitems & _). congruence.
Qed.

(** ** Substring test *)

Lemma append_nil s : ("" ++ s)%string = s.
Proof. reflexivity. Qed.

Lemma append_cons c k s : (String c k ++ s)%string = String c (k ++ s)%string.
Proof. reflexivity. Qed.

Lemma prefix_spec k s :
  String.prefix k s = true ↔ ∃ b, s = (k ++ b)%string.
Proof.
  revert s. induction k as [| c k IH]; intros s; simpl.
  - split; [intros _; by exists s | by destruct s].
  - destruct s as [| c' s]; simpl.
    + split; [done | intros (b & Hb); discriminate].
    + destruct (Ascii.ascii_dec c c') as [<- | Hne].
      * rewrite IH. split; intros (b & Hb); exists b;
          rewrite append_cons in *; congruence.
      * split; [done | intros (b & Hb); rewrite append_cons in Hb; congruence].
Qed.

(** [contains k s] holds exactly when [s] is [a ++ k ++ b] for some
    [a] and [b]. *)
Lemma contains_spec k s :
  contains k s = true ↔ ∃ a b, s = (a ++ k ++ b)%string.
Proof.
  induction s as [| c s IH].
  - change (contains k "") with (String.prefix k "" || false).
    rewrite orb_false_r, prefix_spec. split.
    + intros (b & Hb). by exists EmptyString, b.
    + intros (a & b & Hab). destruct a; [by exists b | discriminate].
  - change (contains k (String c s))
      with (String.prefix k (String c s) || contains k s).
    rewrite orb_true_iff, prefix_spec, IH. split.
    + intros [(b & Hb) | (a & b & Hab)].
      * by exists EmptyString, b.
      * exists (String c a), b. by rewrite append_cons, Hab.
    + intros (a & b & Hab). destruct a as [| c' a].
      * left. by exists b.
      * right. exists a, b. rewrite append_cons in Hab. congruence.
Qed.

(** The dispatcher's test: the lowered text contains one of the
    trigger phrases. *)
Lemma asks_for_human_spec t :
  asks_for_human t = true ↔
  ∃ k a b, In k triggers ∧ lower t = (a ++ k ++ b)%string.
Proof.
  unfold asks_for_human. rewrite existsb_exists. split.
  - intros (k & Hin & Hk). apply contains_spec in Hk as (a & b & Hab).
    by exists k, a, b.
  - intros (k & a & b & Hin & Hab). exists k. split; [done |].
    apply contains_spec. by exists a, b.
Qed.

(** ** Notification sender and dispatcher *)

Lemma only_sent_nil w : only_sent [] w w.
Proof. unfold only_sent. by rewrite app_nil_r. Qed.

(** A send posts once and returns, whether or not the post goes
    through; a failed post is only printed. *)
Lemma send_message_spec uid text qrs w :
  ∃ w', send_message uid text qrs w = (Ret tt, w') ∧
        only_sent [Post PAGE_ACCESS_TOKEN "RESPONSE" uid text qrs] w w' ∧
        stdout w' = stdout w ++
          (if requests_post (length (outbox w))
                (Post PAGE_ACCESS_TOKEN "RESPONSE" uid text qrs)
           then [] else [SendError]).
Proof.
  unfold send_message, try_except, do_post.
  destruct (requests_post _ _); eexists; (split; [reflexivity |]);
    unfold only_sent; simpl; by rewrite ?app_nil_r.
Qed.

(** C3. A text whose lowered form contains one of the trigger phrases
    at any position makes the dispatcher post the human-support notice
    and return: that post is the only one, no completion call is made,
    and the context store and the user table, counters included, are
    untouched. *)
Theorem trigger_phrase_goes_to_human_support
    (uid : json) (t k a b : string) (w : world) :
  In k triggers →
  lower t = (a ++ k ++ b)%string →
  ∃ w', process_message uid (JStr t) w = (Ret tt, w') ∧
        outbox w' = outbox w ++ [notice uid human_support_notice] ∧
        completions w' = completions w ∧
        user_contexts w' = user_contexts w ∧ heap w' = heap w ∧
        (∀ u, context_of w' u = context_of w u) ∧
        users w' = users w ∧
        (∀ u, counter_of w' u = counter_of w u).
Proof.
  intros Hin Hsub.
  assert (Hask : asks_for_human t = true).
  { apply asks_for_human_spec. by exists k, a, b. }
  unfold process_message. rewrite Hask.
  destruct (send_message_spec uid human_support_notice [] w)
    as (w' & Hrun & (Huc & Hheap & Husers & Hcomp & _ & Hout) & _).
  exists w'. split; [done |].
  split; [done |]. split; [done |]. split; [done |]. split; [done |].
  split; [| split; [done |]].
  - intros u. unfold context_of. by rewrite Huc, Hheap.
  - intros u. unfold counter_of. by rewrite Husers.
Qed.

(** ** Events *)

Lemma eq_str_spec v s : eq_str v s = true ↔ v = JStr s.
Proof.
  destruct v; simpl; try (split; [discriminate | congruence]).
  rewrite String.eqb_eq. split; congruence.
Qed.

(** C9. An event whose message object has no "text" key leaves the
    whole state as it was, so nothing is sent and neither a context nor
    a counter changes, whatever else the message carries, a quick reply
    with a known payload included; the handler goes on to the next
    event, unless the event's "sender" is not an object, which raises
    before the message is looked at. *)
Theorem message_without_text_is_skipped
    (e m : list (string * json)) (w : world) :
  dict_get "message" e = Some (JObj m) →
  dict_get "text" m = None →
  (handle_event (JObj e) w).2 = w ∧
  (handle_event (JObj e) w).1 =
    match dict_get "sender" e with
    | None | Some (JObj _) => Ret tt
    | Some _ => Raise AttributeError
    end.
Proof.
  intros Hmsg Htext. unfold handle_event, bind. simpl.
  destruct (dict_get "sender" e) as [sender |]; simpl.
  - destruct sender; simpl; try done.
    rewrite Hmsg. simpl.
    destruct (truthy _); simpl; [by rewrite Htext | done].
  - done.
Qed.

(** An event that carries a quick reply, in the form the handler acts
    on: a truthy sender id, a message with a "text" key, and a
    "quick_reply" object with a "payload". *)
Lemma handle_event_quick_reply (e s m q : list (string * json)) (uid t p : json) w :
  dict_get "sender" e = Some (JObj s) → dict_get "id" s = Some uid →
  truthy uid = true →
  dict_get "message" e = Some (JObj m) → dict_get "text" m = Some t →
  dict_get "quick_reply" m = Some (JObj q) → dict_get "payload" q = Some p →
  handle_event (JObj e) w =
    (if eq_str p "HUMAN_SUPPORT" then send_message uid human_support_notice []
     else if eq_str p "SERVICE_INFO" then send_message uid service_info_notice []
     else ret tt) w.
Proof.
  intros Hs Hid Huid Hm Ht Hq Hp.
  unfold handle_event, bind. simpl.
  rewrite Hs. simpl. rewrite Hid. simpl. rewrite Hm. simpl.
  rewrite Huid. simpl. rewrite Ht. rewrite Hq. simpl.
  destruct q as [| kv q]; [discriminate |].
  rewrite Hp. reflexivity.
Qed.

(** C4, as the code has it. For an event with a truthy sender id whose
    message has a "text" key and a quick-reply object with a payload:
    the handler returns without a completion call and without touching
    contexts or counters; payload HUMAN_SUPPORT posts the human-support
    notice and nothing else, payload SERVICE_INFO posts the service
    notice and nothing else, and any other payload leaves the state as
    it was. *)
Theorem quick_reply_with_text
    (e s m q : list (string * json)) (uid t p : json) (w : world) :
  dict_get "sender" e = Some (JObj s) → dict_get "id" s = Some uid →
  truthy uid = true →
  dict_get "message" e = Some (JObj m) → dict_get "text" m = Some t →
  dict_get "quick_reply" m = Some (JObj q) → dict_get "payload" q = Some p →
  ∃ w', handle_event (JObj e) w = (Ret tt, w') ∧
        completions w' = completions w ∧
        user_contexts w' = user_contexts w ∧ heap w' = heap w ∧
        users w' = users w ∧ commits w' = commits w ∧
        (p = JStr "HUMAN_SUPPORT" →
           outbox w' = outbox w ++ [notice uid human_support_notice]) ∧
        (p = JStr "SERVICE_INFO" →
           outbox w' = outbox w ++ [notice uid service_info_notice]) ∧
        (p ≠ JStr "HUMAN_SUPPORT" → p ≠ JStr "SERVICE_INFO" → w' = w).
Proof.
  intros Hs Hid Huid Hm Ht Hq Hp.
  rewrite (handle_event_quick_reply e s m q uid t p w) by done.
  destruct (eq_str p "HUMAN_SUPPORT") eqn:Hhuman;
    [| destruct (eq_str p "SERVICE_INFO") eqn:Hinfo].
  - apply eq_str_spec in Hhuman as ->.
    destruct (send_message_spec uid human_support_notice [] w)
      as (w' & Hrun & (Huc & Hheap & Husers & Hcomp & Hcommits & Hout) & _).
    exists w'. do 6 (split; [done |]).
    split; [done | split; [discriminate | congruence]].
  - apply eq_str_spec in Hinfo as ->.
    destruct (send_message_spec uid service_info_notice [] w)
      as (w' & Hrun & (Huc & Hheap & Husers & Hcomp & Hcommits & Hout) & _).
    exists w'. do 6 (split; [done |]).
    split; [discriminate | split; [done | congruence]].
  - exists w. do 6 (split; [done |]).
    split; [| split; [| done]].
    + intros ->. by rewrite (proj2 (eq_str_spec _ _)) in Hhuman.
    + intros ->. by rewrite (proj2 (eq_str_spec _ _)) in Hinfo.
Qed.

(** ** Stepping through a computation *)

Lemma bind_ret_step {A B : Type} (m : M A) (k : A → M B) w a w' :
  m w = (Ret a, w') → bind m k w = k a w'.
Proof. unfold bind. by intros ->. Qed.

Lemma bind_raise_step {A B : Type} (m : M A) (k : A → M B) w e w' :
  m w = (Raise e, w') → bind m k w = (Raise e, w').
Proof. unfold bind. by intros ->. Qed.

Lemma try_except_ret {A : Type} (m : M A) (h : exn → M A) w a w' :
  m w = (Ret a, w') → try_except m h w = (Ret a, w').
Proof. unfold try_except. by intros ->. Qed.

Lemma try_except_raise {A : Type} (m : M A) (h : exn → M A) w e w' :
  m w = (Raise e, w') → try_except m h w = h e w'.
Proof. unfold try_except. by intros ->. Qed.

(** [wf] and [context_of] only look at the dict and the heap. *)
Lemma wf_ext w w' :
  user_contexts w' = user_contexts w → heap w' = heap w → wf w → wf w'.
Proof.
  intros Huc Hheap [Hdeques Hunshared]. split.
  - intros uid d. rewrite Huc, Hheap. apply Hdeques.
  - intros u1 u2 d. rewrite Huc. apply Hunshared.
Qed.

Lemma context_of_ext w w' u :
  user_contexts w' = user_contexts w → heap w' = heap w →
  context_of w' u = context_of w u.
Proof. intros Huc Hheap. unfold context_of. by rewrite Huc, Hheap. Qed.

(** ** Completion client *)

(** The completion step between the two appends: one call is recorded,
    and whatever the endpoint does the step returns a reply, the
    fallback text after a failure, which is then also printed. *)
Lemma completion_step msgs w :
  let resp := chat_completions_create (length (completions w)) msgs in
  ∃ w', try_except (resp <- create msgs ;; first_choice resp)
                   (fun _ w => (Ret fallback_reply, print OpenAIError w)) w
        = (Ret (reply_to resp), w') ∧
        user_contexts w' = user_contexts w ∧ heap w' = heap w ∧
        completions w' = completions w ++ [msgs] ∧
        users w' = users w ∧ outbox w' = outbox w ∧ commits w' = commits w.
Proof.
  intros resp. unfold try_except, bind, create. fold resp.
  destruct resp as [| [| [c |] rest]]; simpl; eexists; by repeat split.
Qed.

Lemma ask_gpt_spec uid msg w :
  wf w →
  let ctx1 := deque_append CONTEXT_LIMIT (context_of w uid) (Turn "user" msg) in
  let resp := chat_completions_create (length (completions w)) (system_prompt :: ctx1) in
  ∃ w', ask_gpt uid msg w = (Ret (reply_to resp), w') ∧ wf w' ∧
        context_of w' uid =
          deque_append CONTEXT_LIMIT ctx1 (Turn "assistant" (reply_to resp)) ∧
        (∀ u, u ≠ uid → context_of w' u = context_of w u) ∧
        completions w' = completions w ++ [system_prompt :: ctx1] ∧
        users w' = users w ∧ outbox w' = outbox w ∧ commits w' = commits w.
Proof.
  intros Hwf ctx1 resp.
  destruct (update_context_spec uid "user" msg w Hwf)
    as (w1 & Hrun1 & Hwf1 & Hctx1 & Hother1 & (Hu1 & Ho1 & Hc1 & _ & Hn1) & _).
  fold ctx1 in Hctx1.
  pose proof (get_context_spec uid w1 Hwf1) as Hrun2.
  set (l := fresh (dom (heap w1))) in Hrun2.
  set (w2 := set_heap (<[l := PyList (context_of w1 uid)]> (heap w1)) w1) in Hrun2.
  assert (Hwf2 : wf w2) by (by apply alloc_list_wf).
  assert (Hctx2 : ∀ u, context_of w2 u = context_of w1 u)
    by (intros u; by apply alloc_list_context).
  assert (Hrun3 : list_items l w2 = (Ret ctx1, w2)).
  { unfold list_items, w2. simpl. rewrite lookup_insert_eq. simpl. by rewrite Hctx1. }
  destruct (completion_step (system_prompt :: ctx1) w2)
    as (w3 & Hrun4 & Huc3 & Hheap3 & Hcomp3 & Hu3 & Ho3 & Hn3).
  assert (Hlen : length (completions w2) = length (completions w))
    by (unfold w2; simpl; by rewrite Hc1).
  rewrite Hlen in Hrun4. fold resp in Hrun4.
  assert (Hwf3 : wf w3) by (by apply (wf_ext w2)).
  destruct (update_context_spec uid "assistant" (reply_to resp) w3 Hwf3)
    as (w4 & Hrun5 & Hwf4 & Hctx4 & Hother4 & (Hu4 & Ho4 & Hc4 & _ & Hn4) & _).
  exists w4. split.
  { unfold ask_gpt.
    rewrite (bind_ret_step _ _ _ _ _ Hrun1).
    rewrite (bind_ret_step _ _ _ _ _ Hrun2).
    rewrite (bind_ret_step _ _ _ _ _ Hrun3).
    rewrite (bind_ret_step _ _ _ _ _ Hrun4).
    by rewrite (bind_ret_step _ _ _ _ _ Hrun5). }
  split; [done |].
  split.
  { rewrite Hctx4, (context_of_ext w2 w3) by done. by rewrite Hctx2, Hctx1. }
  split.
  { intros u Hu. rewrite Hother4, (context_of_ext w2 w3) by done.
    rewrite Hctx2. by apply Hother1. }
  split; [rewrite Hc4, Hcomp3; unfold w2; simpl; by rewrite Hc1 |].
  split; [rewrite Hu4, Hu3; unfold w2; simpl; by rewrite Hu1 |].
  split; [rewrite Ho4, Ho3; unfold w2; simpl; by rewrite Ho1 |].
  rewrite Hn4, Hn3. unfold w2. simpl. by rewrite Hn1.
Qed.

Lemma last_n_app_le {A : Type} m (l k : list A) :
  length k ≤ m → last_n m (l ++ k) = last_n (m - length k) l ++ k.
Proof.
  intros Hle. unfold last_n. rewrite length_app.
  rewrite drop_app_le by lia. do 2 f_equal. lia.
Qed.

(** Two appends in a row keep the last [m] of what was there followed
    by the two new items. *)
Lemma deque_append_twice {A : Type} m (items : list A) x y :
  0 < m → length items ≤ m →
  deque_append m (deque_append m items x) y = last_n m (items ++ [x; y]).
Proof.
  intros Hm Hle.
  rewrite <- (last_n_all m items Hle) at 1.
  rewrite !deque_append_last_n by done.
  by rewrite <- app_assoc.
Qed.

Lemma reply_to_failed resp : failed resp → reply_to resp = fallback_reply.
Proof. by intros []. Qed.

(** C10. A call of [ask_gpt] in any state of the program returns a
    reply and has appended two turns to the user's context: the user's
    text, appended before the completion call and so part of the
    messages sent, then the reply. When the completion fails the reply
    is the fallback text; it is stored like any reply, and the next
    call for the same user sends it to the completion endpoint as an
    assistant turn. *)
Theorem ask_gpt_appends_two_turns (uid msg : string) (w : world) :
  wf w →
  let msgs := system_prompt ::
              deque_append 10 (context_of w uid) (Turn "user" msg) in
  let resp := chat_completions_create (length (completions w)) msgs in
  ∃ reply w',
    ask_gpt uid msg w = (Ret reply, w') ∧
    completions w' = completions w ++ [msgs] ∧
    context_of w' uid =
      last_n 10 (context_of w uid ++ [Turn "user" msg; Turn "assistant" reply]) ∧
    (failed resp → reply = fallback_reply) ∧
    (failed resp → ∀ msg2, ∃ reply2 w'' msgs2,
       ask_gpt uid msg2 w' = (Ret reply2, w'') ∧
       completions w'' = completions w' ++ [msgs2] ∧
       In (Turn "assistant" fallback_reply) msgs2).
Proof.
  intros Hwf msgs resp.
  assert (Hm : 0 < CONTEXT_LIMIT) by (unfold CONTEXT_LIMIT; lia).
  destruct (ask_gpt_spec uid msg w Hwf)
    as (w' & Hrun & Hwf' & Hctx & _ & Hcomp & _).
  change CONTEXT_LIMIT with 10 in Hrun, Hctx, Hcomp.
  fold msgs in Hcomp. fold msgs resp in Hrun, Hctx.
  exists (reply_to resp), w'.
  split; [done |]. split; [done |].
  assert (Hctx' : context_of w' uid =
    last_n 10 (context_of w uid ++ [Turn "user" msg; Turn "assistant" (reply_to resp)])).
  { rewrite Hctx. apply (deque_append_twice CONTEXT_LIMIT); [done |].
    by apply context_of_length. }
  split; [done |].
  split; [apply reply_to_failed |].
  intros Hfailed msg2.
  destruct (ask_gpt_spec uid msg2 w' Hwf')
    as (w'' & Hrun2 & _ & _ & _ & Hcomp2 & _).
  eexists _, w'', _. split; [exact Hrun2 |]. split; [exact Hcomp2 |].
  right.
  rewrite Hctx', (reply_to_failed resp Hfailed).
  change 10 with CONTEXT_LIMIT.
  rewrite deque_append_last_n by done.
  rewrite <- app_assoc. simpl.
  rewrite (last_n_app_le CONTEXT_LIMIT) by (simpl; unfold CONTEXT_LIMIT; lia).
  apply in_or_app. right. simpl. right. by left.
Qed.

(** ** Usage counter *)

(** A committed increment: the row of [uid] is created if need be and
    its counter goes up by one; no other row and nothing else of the
    state changes. *)
Lemma log_conversation_spec uid w :
  session_commit (commits w) = true →
  ∃ w', log_conversation uid w = (Ret tt, w') ∧
        counter_of w' uid = Some (default 0 (counter_of w uid) + 1)%Z ∧
        (users w !! uid = None →
           users w' !! uid = Some (mkUser (utcnow (commits w)) (Some 1%Z))) ∧
        (∀ u, u ≠ uid → users w' !! u = users w !! u) ∧
        user_contexts w' = user_contexts w ∧ heap w' = heap w ∧
        outbox w' = outbox w ∧ completions w' = completions w ∧
        commits w' = S (commits w).
Proof.
  intros Hok. unfold log_conversation. rewrite Hok.
  eexists. split; [reflexivity |].
  unfold counter_of. simpl. rewrite lookup_insert_eq. simpl.
  split; [by destruct (users w !! uid) |].
  split; [by intros -> |].
  split; [| done].
  intros u Hu. by rewrite lookup_insert_ne.
Qed.

(** A failed session raises and commits nothing. *)
Lemma log_conversation_failure uid w :
  session_commit (commits w) = false →
  ∃ w', log_conversation uid w = (Raise SQLAlchemyError, w') ∧
        users w' = users w ∧ outbox w' = outbox w ∧
        user_contexts w' = user_contexts w ∧ heap w' = heap w.
Proof.
  intros Hko. unfold log_conversation. rewrite Hko.
  eexists. by split.
Qed.

(** ** The normal path of the dispatcher *)

Lemma process_message_normal (u t : string) w :
  wf w →
  asks_for_human t = false →
  session_commit (commits w) = true →
  let msgs := system_prompt ::
              deque_append CONTEXT_LIMIT (context_of w u) (Turn "user" t) in
  let resp := chat_completions_create (length (completions w)) msgs in
  ∃ w', process_message (JStr u) (JStr t) w = (Ret tt, w') ∧ wf w' ∧
        completions w' = completions w ++ [msgs] ∧
        outbox w' = outbox w ++
          [Post PAGE_ACCESS_TOKEN "RESPONSE" (JStr u) (reply_to resp) reply_options] ∧
        counter_of w' u = Some (default 0 (counter_of w u) + 1)%Z ∧
        (users w !! u = None →
           users w' !! u = Some (mkUser (utcnow (commits w)) (Some 1%Z))) ∧
        (∀ u', u' ≠ u → users w' !! u' = users w !! u') ∧
        commits w' = S (commits w).
Proof.
  intros Hwf Hask Hok msgs resp.
  destruct (ask_gpt_spec u t w Hwf)
    as (w1 & Hrun1 & Hwf1 & _ & _ & Hcomp1 & Hu1 & Ho1 & Hn1).
  fold msgs in Hcomp1. fold msgs resp in Hrun1.
  rewrite <- Hn1 in Hok.
  destruct (log_conversation_spec u w1 Hok)
    as (w2 & Hrun2 & Hcount2 & Hnew2 & Hrows2 & Huc2 & Hheap2 & Ho2 & Hcomp2 & Hn2).
  destruct (send_message_spec (JStr u) (reply_to resp) reply_options w2)
    as (w3 & Hrun3 & (Huc3 & Hheap3 & Hu3 & Hcomp3 & Hn3 & Ho3) & _).
  exists w3. split.
  { unfold process_message. rewrite Hask.
    rewrite (bind_ret_step _ _ _ _ _ Hrun1).
    by rewrite (bind_ret_step _ _ _ _ _ Hrun2). }
  split.
  { apply (wf_ext w2); [done | done |]. by apply (wf_ext w1). }
  split; [by rewrite Hcomp3, Hcomp2 |].
  split; [by rewrite Ho3, Ho2, Ho1 |].
  unfold counter_of in *. rewrite Hu3, <- Hu1, <- Hn1.
  repeat split; try done. by rewrite Hn3, Hn2.
Qed.

(** When the session fails the exception leaves the dispatcher before
    the reply is sent. *)
Lemma process_message_storage_failure (u t : string) w :
  wf w →
  asks_for_human t = false →
  session_commit (commits w) = false →
  ∃ w', process_message (JStr u) (JStr t) w = (Raise SQLAlchemyError, w') ∧
        wf w' ∧ outbox w' = outbox w ∧ users w' = users w.
Proof.
  intros Hwf Hask Hko.
  destruct (ask_gpt_spec u t w Hwf)
    as (w1 & Hrun1 & Hwf1 & _ & _ & _ & Hu1 & Ho1 & Hn1).
  rewrite <- Hn1 in Hko.
  destruct (log_conversation_failure u w1 Hko)
    as (w2 & Hrun2 & Hu2 & Ho2 & Huc2 & Hheap2).
  exists w2. split.
  { unfold process_message. rewrite Hask.
    rewrite (bind_ret_step _ _ _ _ _ Hrun1).
    by rewrite (bind_raise_step _ _ _ _ _ Hrun2). }
  split; [by apply (wf_ext w1) |].
  split; congruence.
Qed.

(** C5. For a text that is no request for human support, in any state
    of the program, when the completion call fails (the client raises,
    or its response has no choice or a null content): [ask_gpt] returns
    the fallback text instead of raising; and, the storage session
    working, the dispatcher returns having posted exactly one message,
    the fallback text with the two reply options, and having raised the
    user's counter by one. *)
Theorem completion_failure_is_absorbed (u t : string) (w : world) :
  wf w →
  asks_for_human t = false →
  failed (chat_completions_create (length (completions w))
            (system_prompt :: deque_append 10 (context_of w u) (Turn "user" t))) →
  (∃ w1, ask_gpt u t w = (Ret fallback_reply, w1)) ∧
  (session_commit (commits w) = true →
   ∃ w', process_message (JStr u) (JStr t) w = (Ret tt, w') ∧
         outbox w' = outbox w ++
           [Post PAGE_ACCESS_TOKEN "RESPONSE" (JStr u) fallback_reply reply_options] ∧
         counter_of w' u = Some (default 0 (counter_of w u) + 1)%Z).
Proof.
  intros Hwf Hask Hfailed. apply reply_to_failed in Hfailed. split.
  - destruct (ask_gpt_spec u t w Hwf) as (w1 & Hrun & _).
    change CONTEXT_LIMIT with 10 in Hrun. rewrite Hfailed in Hrun. by exists w1.
  - intros Hok.
    destruct (process_message_normal u t w Hwf Hask Hok)
      as (w' & Hrun & _ & _ & Hout & Hcount & _).
    change CONTEXT_LIMIT with 10 in Hout. rewrite Hfailed in Hout.
    by exists w'.
Qed.

(** C6. The increment, when its session commits, raises the counter of
    [u] by exactly one, from 0 for a user without a row, whose row it
    creates with counter 1, and leaves every other row as it was; and so
    does every dispatch of a normal message from [u] that goes through,
    whatever the completion and the send endpoints do. *)
Theorem counter_goes_up_by_one (u : string) (w : world) :
  session_commit (commits w) = true →
  (∃ w', log_conversation u w = (Ret tt, w') ∧
         counter_of w' u = Some (default 0 (counter_of w u) + 1)%Z ∧
         (users w !! u = None →
            users w' !! u = Some (mkUser (utcnow (commits w)) (Some 1%Z))) ∧
         (∀ u', u' ≠ u → users w' !! u' = users w !! u')) ∧
  (wf w → ∀ t, asks_for_human t = false →
   ∃ w', process_message (JStr u) (JStr t) w = (Ret tt, w') ∧
         counter_of w' u = Some (default 0 (counter_of w u) + 1)%Z ∧
         (users w !! u = None →
            users w' !! u = Some (mkUser (utcnow (commits w)) (Some 1%Z))) ∧
         (∀ u', u' ≠ u → users w' !! u' = users w !! u')).
Proof.
  intros Hok. split.
  - destruct (log_conversation_spec u w Hok)
      as (w' & Hrun & Hcount & Hnew & Hrows & _).
    by exists w'.
  - intros Hwf t Hask.
    destruct (process_message_normal u t w Hwf Hask Hok)
      as (w' & Hrun & _ & _ & _ & Hcount & Hnew & Hrows & _).
    by exists w'.
Qed.

(** ** Webhook verification *)

(** C8. The verification request gets status 200 exactly when the
    supplied verify token is the configured one, the body then being
    the supplied challenge (empty when none is supplied); any other
    request gets status 403 with the body "Invalid token". *)
Theorem verify_webhook_echoes_challenge (args : list (string * string)) :
  (status (verify_webhook args) = 200 ↔
   args_get "hub.verify_token" args = Some VERIFY_TOKEN) ∧
  (∀ c, args_get "hub.verify_token" args = Some VERIFY_TOKEN →
        args_get "hub.challenge" args = Some c →
        verify_webhook args = Response 200 (Text c)) ∧
  (args_get "hub.verify_token" args = Some VERIFY_TOKEN →
   args_get "hub.challenge" args = None →
   verify_webhook args = Response 200 (Text "")) ∧
  (args_get "hub.verify_token" args ≠ Some VERIFY_TOKEN →
   verify_webhook args = Response 403 (Text "Invalid token")).
Proof.
  unfold verify_webhook.
  destruct (args_get "hub.verify_token" args) as [tok |] eqn:Htok.
  - destruct (String.eqb_spec tok VERIFY_TOKEN) as [-> | Hne].
    + split; [done |]. split; [by intros c _ -> |].
      split; [by intros _ -> | done].
    + split; [simpl; split; [discriminate | congruence] |].
      split; [intros c; congruence |]. split; [congruence | done].
  - split; [simpl; split; discriminate |].
    split; [discriminate |]. split; [discriminate | done].
Qed.

(** ** The states of the program are kept by every handler *)

Lemma keeps_wf_ret {A : Type} (a : A) : keeps_wf (ret a).
Proof. by intros w Hwf. Qed.

Lemma keeps_wf_raise {A : Type} e : keeps_wf (@raise A e).
Proof. by intros w Hwf. Qed.

Lemma keeps_wf_bind {A B : Type} (m : M A) (k : A → M B) :
  keeps_wf m → (∀ a, keeps_wf (k a)) → keeps_wf (bind m k).
Proof.
  intros Hm Hk w Hwf. unfold bind.
  specialize (Hm w Hwf). destruct (m w) as [[a | e] w1]; simpl in *.
  - by apply Hk.
  - done.
Qed.

Create HintDb keeps discriminated.
#[local] Hint Resolve keeps_wf_ret keeps_wf_raise : keeps.

(** Splits a sequence of binds, leaving what the hints do not close. *)
Ltac keeps_wf_steps :=
  repeat (apply keeps_wf_bind; [solve [eauto with keeps] | intros ?]);
  eauto with keeps.

Lemma keeps_wf_for_each {A : Type} (body : A → M unit) xs :
  (∀ x, keeps_wf (body x)) → keeps_wf (for_each body xs).
Proof.
  intros Hbody. induction xs as [| x xs IH]; simpl.
  - apply keeps_wf_ret.
  - apply keeps_wf_bind; [apply Hbody | by intros _].
Qed.

Lemma keeps_wf_get_method v k d : keeps_wf (get_method v k d).
Proof. destruct v; simpl; eauto with keeps. Qed.

Lemma keeps_wf_subscript v k : keeps_wf (subscript v k).
Proof.
  destruct v; simpl; eauto with keeps.
  destruct (dict_get k fields); eauto with keeps.
Qed.

Lemma keeps_wf_contains_op k v : keeps_wf (contains_op k v).
Proof. destruct v; simpl; eauto with keeps. Qed.

Lemma keeps_wf_iterate v : keeps_wf (iterate v).
Proof. destruct v; simpl; eauto with keeps. Qed.

Lemma keeps_wf_send_message uid text qrs : keeps_wf (send_message uid text qrs).
Proof.
  intros w Hwf.
  destruct (send_message_spec uid text qrs w) as (w' & -> & (Huc & Hheap & _) & _).
  by apply (wf_ext w).
Qed.

Lemma keeps_wf_log_conversation uid : keeps_wf (log_conversation uid).
Proof.
  intros w Hwf. unfold log_conversation.
  destruct (session_commit (commits w)); by apply (wf_ext w).
Qed.

Lemma keeps_wf_ask_gpt uid msg : keeps_wf (ask_gpt uid msg).
Proof.
  intros w Hwf. by destruct (ask_gpt_spec uid msg w Hwf) as (w' & -> & Hwf' & _).
Qed.

#[local] Hint Resolve keeps_wf_get_method keeps_wf_subscript keeps_wf_contains_op
  keeps_wf_iterate keeps_wf_send_message keeps_wf_log_conversation
  keeps_wf_ask_gpt keeps_wf_for_each : keeps.

Lemma keeps_wf_process_message uid text : keeps_wf (process_message uid text).
Proof.
  unfold process_message.
  destruct text as [| | | t | |]; eauto with keeps.
  destruct (asks_for_human t); eauto with keeps.
  destruct uid; eauto with keeps.
  keeps_wf_steps.
Qed.

#[local] Hint Resolve keeps_wf_process_message : keeps.

Lemma keeps_wf_handle_event ev : keeps_wf (handle_event ev).
Proof.
  unfold handle_event.
  do 3 (apply keeps_wf_bind; [solve [eauto with keeps] | intros ?]).
  apply keeps_wf_bind; [destruct (truthy _); eauto with keeps |].
  intros [|]; eauto with keeps.
  apply keeps_wf_bind; [solve [eauto with keeps] | intros quick].
  destruct (truthy quick); keeps_wf_steps.
  repeat (match goal with |- context [eq_str ?p ?s] => destruct (eq_str p s) end);
    eauto with keeps.
Qed.

#[local] Hint Resolve keeps_wf_handle_event : keeps.

Lemma keeps_wf_handle_entry entry : keeps_wf (handle_entry entry).
Proof. unfold handle_entry. keeps_wf_steps. Qed.

#[local] Hint Resolve keeps_wf_handle_entry : keeps.

Lemma keeps_wf_webhook body : keeps_wf (webhook body).
Proof. unfold webhook. keeps_wf_steps. Qed.

(** Every state the server reaches is a state of the program, whatever
    the requests and whatever the outside world does. *)
Lemma serve_wf bodies : wf (serve bodies init).
Proof.
  unfold serve. generalize wf_init. generalize init.
  induction bodies as [| body bodies IH]; intros w Hwf; simpl.
  - done.
  - apply IH. by apply keeps_wf_webhook.
Qed.

(** ** The ingestion endpoint on well-shaped bodies *)

Lemma send_message_ok uid text qrs w :
  wf w → ∃ w', send_message uid text qrs w = (Ret tt, w') ∧ wf w'.
Proof.
  intros Hwf.
  destruct (send_message_spec uid text qrs w) as (w' & Hrun & (Huc & Hheap & _) & _).
  exists w'. split; [done |]. by apply (wf_ext w).
Qed.

Lemma process_message_ok (u t : string) w :
  wf w → (∀ n, session_commit n = true) →
  ∃ w', process_message (JStr u) (JStr t) w = (Ret tt, w') ∧ wf w'.
Proof.
  intros Hwf Hok. destruct (asks_for_human t) eqn:Hask.
  - unfold process_message. rewrite Hask. by apply send_message_ok.
  - destruct (process_message_normal u t w Hwf Hask (Hok _)) as (w' & Hrun & Hwf' & _).
    by exists w'.
Qed.

Lemma handle_event_ok ev w :
  wf w → event_ok ev = true → (∀ n, session_commit n = true) →
  ∃ w', handle_event ev w = (Ret tt, w') ∧ wf w'.
Proof.
  intros Hwf Hev Hok.
  destruct ev as [| | | | | e]; try discriminate. simpl in Hev.
  unfold handle_event, bind. simpl.
  destruct (dict_get "sender" e) as [sender |]; simpl; [| by exists w].
  destruct sender as [| | | | | s]; try discriminate. simpl.
  destruct (dict_get "id" s) as [uid |]; simpl; [| by exists w].
  destruct (truthy uid) eqn:Huid; simpl; [| by exists w].
  apply andb_true_iff in Hev as [Hstr Hmsg].
  destruct uid as [| | | u | |]; try discriminate.
  destruct (dict_get "message" e) as [msg |]; simpl in *; [| by exists w].
  destruct msg as [| | | | | m]; try discriminate. simpl in *.
  destruct (dict_get "text" m) as [t |] eqn:Ht; simpl; [| by exists w].
  destruct (dict_get "quick_reply" m) as [quick |]; simpl.
  - destruct (truthy quick) eqn:Hq; simpl.
    + destruct quick as [| | | | | q]; try discriminate. simpl.
      destruct (dict_get "payload" q) as [p |]; try discriminate. simpl.
      destruct (eq_str p "HUMAN_SUPPORT"); [by apply send_message_ok |].
      destruct (eq_str p "SERVICE_INFO"); [by apply send_message_ok |].
      by exists w.
    + destruct t as [| | | t' | |]; try discriminate. by apply process_message_ok.
  - destruct t as [| | | t' | |]; try discriminate. by apply process_message_ok.
Qed.

Lemma for_each_ok {A : Type} (P : A → bool) (body : A → M unit) xs :
  (∀ x w, wf w → P x = true → ∃ w', body x w = (Ret tt, w') ∧ wf w') →
  ∀ w, wf w → forallb P xs = true →
       ∃ w', for_each body xs w = (Ret tt, w') ∧ wf w'.
Proof.
  intros Hbody. induction xs as [| x xs IH]; intros w Hwf Hall; simpl in *.
  - by exists w.
  - apply andb_true_iff in Hall as [Hx Hxs].
    destruct (Hbody x w Hwf Hx) as (w1 & Hrun1 & Hwf1).
    destruct (IH w1 Hwf1 Hxs) as (w2 & Hrun2 & Hwf2).
    exists w2. split; [| done].
    by rewrite (bind_ret_step _ _ _ _ _ Hrun1).
Qed.

Lemma handle_entry_ok entry w :
  wf w → entry_ok entry = true → (∀ n, session_commit n = true) →
  ∃ w', handle_entry entry w = (Ret tt, w') ∧ wf w'.
Proof.
  intros Hwf Hentry Hok.
  destruct entry as [| | | | | e]; try discriminate. simpl in Hentry.
  unfold handle_entry, bind at 1 2. simpl.
  destruct (dict_get "messaging" e) as [evs |]; simpl; [| by exists w].
  destruct evs as [| | | | evs |]; try discriminate. simpl.
  apply (for_each_ok event_ok); [| done | done].
  intros ev w1 Hwf1 Hev. by apply handle_event_ok.
Qed.

(** C7, as the code has it. A post whose body is no JSON document, a
    falsy one, or an envelope of the documented shape is answered with
    200 and [{"status": "ok"}] whenever the storage session does not
    fail during the request, whatever the completion endpoint and the
    send endpoint do. *)
Theorem webhook_acknowledges (body : option json) (w : world) :
  wf w →
  body_ok body = true →
  (∀ n, session_commit n = true) →
  ∃ w', webhook body w = (Ret (Response 200 (Json (JObj [("status", JStr "ok")]))), w') ∧
        wf w'.
Proof.
  intros Hwf Hbody Hok.
  assert (Hentries : ∀ entries, forallb entry_ok entries = true →
    ∃ w', (for_each handle_entry entries ;;; ret ok_response) w
          = (Ret ok_response, w') ∧ wf w').
  { intros entries Hall.
    destruct (for_each_ok entry_ok handle_entry entries) with (w := w)
      as (w' & Hrun & Hwf'); [| done | done |].
    - intros entry w1 Hwf1 Hentry. by apply handle_entry_ok.
    - exists w'. by rewrite (bind_ret_step _ _ _ _ _ Hrun). }
  change (Response 200 _) with ok_response.
  unfold webhook, body_ok in *.
  destruct body as [v |]; [| by apply (Hentries [])].
  destruct (truthy v) eqn:Hv; [| by apply (Hentries [])].
  destruct v as [| | | | | d]; try discriminate.
  unfold bind at 1 2. simpl.
  destruct (dict_get "entry" d) as [entries |]; simpl; [| by apply (Hentries [])].
  destruct entries as [| | | | entries |]; try discriminate. simpl.
  by apply Hentries.
Qed.

(** ** The normal path, whatever the storage session does *)

(** The increment reads the table and the call count only. *)
Lemma log_conversation_users uid w1 w2 :
  users w1 = users w2 → commits w1 = commits w2 →
  users (log_conversation uid w1).2 = users (log_conversation uid w2).2.
Proof.
  intros Hu Hn. unfold log_conversation. rewrite Hu, Hn.
  by destruct (session_commit (commits w2)).
Qed.

Lemma log_conversation_frame uid w :
  let w' := (log_conversation uid w).2 in
  user_contexts w' = user_contexts w ∧ heap w' = heap w ∧
  outbox w' = outbox w ∧ completions w' = completions w ∧
  commits w' = S (commits w).
Proof. unfold log_conversation. by destruct (session_commit (commits w)). Qed.

Lemma log_conversation_outcome uid w :
  (log_conversation uid w).1 =
  if session_commit (commits w) then Ret tt else Raise SQLAlchemyError.
Proof. unfold log_conversation. by destruct (session_commit (commits w)). Qed.

(** Everything a normal message does, with a session that commits or
    fails: the exchange is recorded in the context and the call in the
    log in both cases; the reply is posted only after a commit. *)
Lemma normal_path (u t : string) w :
  wf w →
  asks_for_human t = false →
  let msgs := system_prompt ::
              deque_append CONTEXT_LIMIT (context_of w u) (Turn "user" t) in
  let reply := reply_to (chat_completions_create (length (completions w)) msgs) in
  ∃ w', process_message (JStr u) (JStr t) w =
          ((if session_commit (commits w) then Ret tt else Raise SQLAlchemyError), w') ∧
        wf w' ∧
        context_of w' u =
          last_n CONTEXT_LIMIT
            (context_of w u ++ [Turn "user" t; Turn "assistant" reply]) ∧
        (∀ u', u' ≠ u → context_of w' u' = context_of w u') ∧
        completions w' = completions w ++ [msgs] ∧
        users w' = users (log_conversation u w).2 ∧
        commits w' = S (commits w) ∧
        outbox w' = outbox w ++
          (if session_commit (commits w)
           then [Post PAGE_ACCESS_TOKEN "RESPONSE" (JStr u) reply reply_options]
           else []).
Proof.
  intros Hwf Hask msgs reply.
  assert (Hm : 0 < CONTEXT_LIMIT) by (unfold CONTEXT_LIMIT; lia).
  destruct (ask_gpt_spec u t w Hwf)
    as (w1 & Hrun1 & Hwf1 & Hctx1 & Hother1 & Hcomp1 & Hu1 & Ho1 & Hn1).
  fold msgs in Hcomp1. fold msgs reply in Hrun1, Hctx1.
  rewrite (deque_append_twice CONTEXT_LIMIT) in Hctx1
    by (done || by apply context_of_length).
  pose proof (log_conversation_frame u w1) as (Huc2 & Hheap2 & Ho2 & Hcomp2 & Hn2).
  pose proof (log_conversation_outcome u w1) as Hout2.
  pose proof (log_conversation_users u w1 w Hu1 Hn1) as Hu2.
  destruct (log_conversation u w1) as [r2 w2] eqn:Hrun2. simpl in *.
  assert (Hwf2 : wf w2) by (by apply (wf_ext w1)).
  assert (Hctx2 : ∀ x, context_of w2 x = context_of w1 x)
    by (intros x; by apply context_of_ext).
  rewrite Hn1 in Hout2.
  destruct (session_commit (commits w)) eqn:Hok; subst r2.
  - destruct (send_message_spec (JStr u) reply reply_options w2)
      as (w3 & Hrun3 & (Huc3 & Hheap3 & Hu3 & Hcomp3 & Hn3 & Ho3) & _).
    exists w3. split.
    { unfold process_message. rewrite Hask.
      rewrite (bind_ret_step _ _ _ _ _ Hrun1).
      by rewrite (bind_ret_step _ _ _ _ _ Hrun2). }
    split; [by apply (wf_ext w2) |].
    split; [by rewrite (context_of_ext w2 w3), Hctx2 |].
    split; [intros u' Hu'; rewrite (context_of_ext w2 w3), Hctx2 by done;
            by apply Hother1 |].
    split; [by rewrite Hcomp3, Hcomp2 |].
    split; [by rewrite Hu3 |].
    split; [by rewrite Hn3, Hn2, Hn1 |].
    by rewrite Ho3, Ho2, Ho1.
  - exists w2. split.
    { unfold process_message. rewrite Hask.
      rewrite (bind_ret_step _ _ _ _ _ Hrun1).
      by rewrite (bind_raise_step _ _ _ _ _ Hrun2). }
    split; [done |].
    split; [by rewrite Hctx2 |].
    split; [intros u' Hu'; rewrite Hctx2; by apply Hother1 |].
    split; [by rewrite Hcomp2 |].
    split; [done |].
    split; [by rewrite Hn2, Hn1 |].
    by rewrite Ho2, Ho1, app_nil_r.
Qed.

(** ** Relating the state before and after a request *)

Lemma neutral_get_method v k d : neutral (get_method v k d).
Proof. intros w. by destruct v. Qed.

Lemma neutral_subscript v k : neutral (subscript v k).
Proof. intros w. destruct v; try done. simpl. by destruct (dict_get k fields). Qed.

Lemma neutral_contains_op k v : neutral (contains_op k v).
Proof. intros w. by destruct v. Qed.

Lemma neutral_iterate v : neutral (iterate v).
Proof. intros w. by destruct v. Qed.

Section Steps.

(** A preorder on states that notices and normal messages respect is
    respected by every request. *)
Variable R : world → world → Prop.
Hypothesis R_refl : ∀ w, R w w.
Hypothesis R_trans : ∀ w1 w2 w3, R w1 w2 → R w2 w3 → R w1 w3.
Hypothesis R_notice : ∀ uid text w, wf w → R w (send_message uid text [] w).2.
Hypothesis R_normal : ∀ u t w,
  wf w → asks_for_human t = false → R w (process_message (JStr u) (JStr t) w).2.

Lemma steps_neutral {A : Type} (m : M A) : neutral m → steps_in R m.
Proof. intros Hm w Hwf. by rewrite Hm. Qed.

Lemma steps_ret {A : Type} (a : A) : steps_in R (ret a).
Proof. intros w Hwf. apply R_refl. Qed.

Lemma steps_raise {A : Type} e : steps_in R (@raise A e).
Proof. intros w Hwf. apply R_refl. Qed.

Lemma steps_bind {A B : Type} (m : M A) (k : A → M B) :
  keeps_wf m → steps_in R m → (∀ a, steps_in R (k a)) → steps_in R (bind m k).
Proof.
  intros Hkeep Hm Hk w Hwf. unfold bind.
  specialize (Hkeep w Hwf). specialize (Hm w Hwf).
  destruct (m w) as [[a | e] w1]; simpl in *; [| done].
  apply (R_trans w w1); [done |]. by apply Hk.
Qed.

Lemma steps_for_each {A : Type} (body : A → M unit) xs :
  (∀ x, keeps_wf (body x)) → (∀ x, steps_in R (body x)) →
  steps_in R (for_each body xs).
Proof.
  intros Hkeep Hbody. induction xs as [| x xs IH]; simpl.
  - apply steps_ret.
  - apply steps_bind; [apply Hkeep | apply Hbody | by intros _].
Qed.

Lemma steps_process_message uid text : steps_in R (process_message uid text).
Proof.
  unfold process_message.
  destruct text as [| | | t | |]; try apply steps_raise.
  destruct (asks_for_human t) eqn:Hask.
  - intros w Hwf. by apply R_notice.
  - destruct uid as [| | | u | |]; try apply steps_raise.
    intros w Hwf. specialize (R_normal u t w Hwf Hask).
    unfold process_message in R_normal. by rewrite Hask in R_normal.
Qed.

Lemma steps_handle_event ev : steps_in R (handle_event ev).
Proof.
  unfold handle_event.
  do 3 (apply steps_bind;
        [apply keeps_wf_get_method | apply steps_neutral, neutral_get_method | intros ?]).
  apply steps_bind.
  { destruct (truthy _); eauto with keeps. }
  { destruct (truthy _); [apply steps_neutral, neutral_contains_op | apply steps_ret]. }
  intros [|]; [| apply steps_ret].
  apply steps_bind;
    [apply keeps_wf_get_method | apply steps_neutral, neutral_get_method | intros quick].
  destruct (truthy quick).
  - do 2 (apply steps_bind;
          [apply keeps_wf_subscript | apply steps_neutral, neutral_subscript | intros ?]).
    repeat (match goal with |- context [eq_str ?p ?s] => destruct (eq_str p s) end);
      try apply steps_ret; intros w Hwf; by apply R_notice.
  - apply steps_bind;
      [apply keeps_wf_subscript | apply steps_neutral, neutral_subscript | intros text].
    apply steps_process_message.
Qed.

Lemma steps_handle_entry entry : steps_in R (handle_entry entry).
Proof.
  unfold handle_entry.
  apply steps_bind;
    [apply keeps_wf_get_method | apply steps_neutral, neutral_get_method | intros evs].
  apply steps_bind;
    [apply keeps_wf_iterate | apply steps_neutral, neutral_iterate | intros evs'].
  apply steps_for_each; [apply keeps_wf_handle_event | apply steps_handle_event].
Qed.

Lemma steps_webhook body : steps_in R (webhook body).
Proof.
  unfold webhook.
  apply steps_bind;
    [apply keeps_wf_get_method | apply steps_neutral, neutral_get_method | intros entries].
  apply steps_bind;
    [apply keeps_wf_iterate | apply steps_neutral, neutral_iterate | intros entries'].
  apply steps_bind; [| | intros _; apply steps_ret].
  - apply keeps_wf_for_each, keeps_wf_handle_entry.
  - apply steps_for_each; [apply keeps_wf_handle_entry | apply steps_handle_entry].
Qed.

Lemma steps_serve bodies : ∀ w, wf w → R w (serve bodies w).
Proof.
  unfold serve. induction bodies as [| body bodies IH]; intros w Hwf; simpl.
  - apply R_refl.
  - apply (R_trans w (webhook body w).2).
    + by apply steps_webhook.
    + apply IH. by apply keeps_wf_webhook.
Qed.

End Steps.

(** The same for a property of states. *)
Lemma invariant_serve (P : world → Prop) :
  (∀ uid text w, wf w → P w → P (send_message uid text [] w).2) →
  (∀ u t w, wf w → asks_for_human t = false → P w →
            P (process_message (JStr u) (JStr t) w).2) →
  P init → ∀ bodies, P (serve bodies init).
Proof.
  intros Hnotice Hnormal Hinit bodies.
  apply (steps_serve (fun w w' => P w → P w')); auto using wf_init.
Qed.

(** ** Whole exchanges *)

Lemma paired_app l k : paired l → paired k → paired (l ++ k).
Proof. induction 1; simpl; [done | intros Hk; constructor; auto]. Qed.

Lemma paired_length l : paired l → ∃ k, length l = 2 * k.
Proof.
  induction 1 as [| a b l _ (k & Hk)]; [by exists 0 |].
  exists (S k). simpl. lia.
Qed.

Lemma paired_drop_even l k : paired l → paired (drop (2 * k) l).
Proof.
  intros Hl. revert l Hl. induction k as [| k IH]; intros l Hl; [done |].
  replace (2 * S k) with (S (S (2 * k))) by lia.
  destruct Hl as [| a b l Hl]; [constructor |]. simpl. by apply IH.
Qed.

Lemma paired_drop_odd l k :
  paired l → 2 * k + 1 ≤ length l →
  ∃ b rest, drop (2 * k + 1) l = Turn "assistant" b :: rest ∧ paired rest.
Proof.
  intros Hl. revert l Hl. induction k as [| k IH]; intros l Hl Hlen.
  - destruct Hl as [| a b l Hl]; [simpl in Hlen; lia |]. by exists b, l.
  - destruct Hl as [| a b l Hl]; [simpl in Hlen; lia |].
    replace (2 * S k + 1) with (S (S (2 * k + 1))) by lia. simpl.
    apply IH; [done |]. simpl in Hlen. lia.
Qed.

Lemma paired_roles l :
  paired l → Forall (fun x => role x = "user" ∨ role x = "assistant") l.
Proof.
  induction 1 as [| a b l _ IH]; [constructor |].
  constructor; [by left |]. constructor; [by right | done].
Qed.

Lemma paired_last_n_even l k : paired l → paired (last_n (2 * k) l).
Proof.
  intros Hl. destruct (paired_length l Hl) as (n & Hn). unfold last_n.
  rewrite Hn. replace (2 * n - 2 * k) with (2 * (n - k)) by lia.
  by apply paired_drop_even.
Qed.

(** Notices leave every context as it is; a normal message adds one
    whole exchange to the sender's. *)
Lemma paired_notice uid text w :
  (∀ u, paired (context_of w u)) →
  ∀ u, paired (context_of (send_message uid text [] w).2 u).
Proof.
  intros Hp u.
  destruct (send_message_spec uid text [] w) as (w' & -> & (Huc & Hheap & _) & _).
  simpl. by rewrite (context_of_ext w w').
Qed.

Lemma paired_normal u t w :
  wf w → asks_for_human t = false →
  (∀ x, paired (context_of w x)) →
  ∀ x, paired (context_of (process_message (JStr u) (JStr t) w).2 x).
Proof.
  intros Hwf Hask Hp x.
  destruct (normal_path u t w Hwf Hask) as (w' & -> & _ & Hctx & Hother & _).
  simpl. destruct (decide (x = u)) as [-> | Hne].
  - rewrite Hctx. apply (paired_last_n_even _ 5).
    apply paired_app; [done |]. repeat constructor.
  - by rewrite Hother.
Qed.

Lemma paired_serve bodies u : paired (context_of (serve bodies init) u).
Proof.
  revert u. apply (invariant_serve (fun w => ∀ u, paired (context_of w u))).
  - intros uid text w _. apply paired_notice.
  - apply paired_normal.
  - intros u. constructor.
Qed.


(** ** The completion calls ever made *)

Lemma call_shape_facts msgs :
  call_shape msgs →
  ∃ turns t,
    msgs = system_prompt :: turns ++ [Turn "user" t] ∧
    length turns ≤ 9 ∧
    Forall (fun x => role x = "user" ∨ role x = "assistant") turns ∧
    (length turns = 9 → ∃ b rest, turns = Turn "assistant" b :: rest).
Proof.
  intros (h & t & Hp & ->).
  exists (last_n 9 h), t.
  split.
  { f_equal. by rewrite (last_n_app_le CONTEXT_LIMIT) by (simpl; unfold CONTEXT_LIMIT; lia). }
  split; [rewrite length_last_n; lia |].
  split; [unfold last_n; apply Forall_drop; by apply paired_roles |].
  rewrite length_last_n. intros Hlen.
  destruct (paired_length h Hp) as (n & Hn). unfold last_n. rewrite Hn.
  replace (2 * n - 9) with (2 * (n - 5) + 1) by lia.
  destruct (paired_drop_odd h (n - 5) Hp) as (b & rest & Hdrop & _); [lia |].
  by exists b, rest.
Qed.

Lemma calls_serve bodies :
  (∀ u, paired (context_of (serve bodies init) u)) ∧
  Forall call_shape (completions (serve bodies init)).
Proof.
  apply (invariant_serve
           (fun w => (∀ u, paired (context_of w u)) ∧ Forall call_shape (completions w))).
  - intros uid text w _ [Hp Hcalls]. split; [by apply paired_notice |].
    destruct (send_message_spec uid text [] w) as (w' & -> & (_ & _ & _ & Hcomp & _) & _).
    simpl. by rewrite Hcomp.
  - intros u t w Hwf Hask [Hp Hcalls]. split; [by apply paired_normal |].
    destruct (normal_path u t w Hwf Hask) as (w' & -> & _ & _ & _ & Hcomp & _).
    simpl. rewrite Hcomp. apply Forall_app. split; [done |].
    constructor; [| constructor].
    exists (context_of w u), t. split; [done |]. f_equal.
    rewrite <- (last_n_all CONTEXT_LIMIT (context_of w u)) at 1
      by (by apply context_of_length).
    apply deque_append_last_n. unfold CONTEXT_LIMIT. lia.
  - split; [intros u; constructor | constructor].
Qed.


(** ** The user table and the statistics page *)

(** The row the increment writes for [uid]. *)
Lemma log_conversation_table uid w :
  users (log_conversation uid w).2 =
  if session_commit (commits w)
  then <[uid := mkUser (created_at (default (mkUser (utcnow (commits w)) None)
                                            (users w !! uid)))
                       (Some (count_of (users w !! uid) + 1)%Z)]> (users w)
  else users w.
Proof.
  unfold log_conversation, count_of.
  destruct (session_commit (commits w)); [| done]. simpl.
  by destruct (users w !! uid).
Qed.

Lemma sum_messages_insert_fresh (rows : gmap string User) u r :
  rows !! u = None →
  default 0%Z (sum_messages (<[u := r]> rows)) =
  (count_of (Some r) + default 0 (sum_messages rows))%Z.
Proof.
  intros Hu. unfold sum_messages, count_of.
  rewrite map_fold_insert_L; [| | done].
  - simpl. by destruct (messages r).
  - intros j1 j2 z1 z2 y _ _ _.
    destruct (messages z1), (messages z2); simpl; try done.
    f_equal. lia.
Qed.

Lemma sum_messages_insert (rows : gmap string User) u r :
  default 0%Z (sum_messages (<[u := r]> rows)) =
  (default 0 (sum_messages rows) - count_of (rows !! u) + count_of (Some r))%Z.
Proof.
  destruct (rows !! u) as [r0 |] eqn:Hu.
  - rewrite <- (insert_delete_id rows u r0 Hu) at 1 2.
    rewrite insert_insert_eq.
    rewrite !sum_messages_insert_fresh by apply lookup_delete_eq. lia.
  - rewrite sum_messages_insert_fresh by done. change (count_of None) with 0%Z. lia.
Qed.

(** What the two numbers of the page become after a normal message. *)
Lemma counts_after_normal u t w :
  wf w → asks_for_human t = false →
  let w' := (process_message (JStr u) (JStr t) w).2 in
  if session_commit (commits w)
  then message_total w' = (message_total w + 1)%Z ∧
       user_count w' = (match users w !! u with
                        | Some _ => user_count w
                        | None => S (user_count w)
                        end) ∧
       replies_posted w' = S (replies_posted w)
  else message_total w' = message_total w ∧ user_count w' = user_count w ∧
       replies_posted w' = replies_posted w.
Proof.
  intros Hwf Hask.
  destruct (normal_path u t w Hwf Hask)
    as (w' & -> & _ & _ & _ & _ & Husers & _ & Hout).
  simpl. unfold message_total, user_count, replies_posted.
  rewrite Husers, Hout, log_conversation_table.
  destruct (session_commit (commits w)).
  - rewrite sum_messages_insert. split; [unfold count_of at 2; simpl; lia |].
    split.
    + destruct (users w !! u) as [r |] eqn:Hu.
      * by rewrite map_size_insert_Some.
      * by rewrite map_size_insert_None.
    + rewrite List.filter_app, length_app. simpl. lia.
  - by rewrite app_nil_r.
Qed.

Lemma counts_after_notice uid text w :
  let w' := (send_message uid text [] w).2 in
  message_total w' = message_total w ∧ user_count w' = user_count w ∧
  replies_posted w' = replies_posted w ∧
  completions w' = completions w ∧ commits w' = commits w.
Proof.
  destruct (send_message_spec uid text [] w)
    as (w' & -> & (_ & _ & Husers & Hcomp & Hn & Hout) & _).
  simpl. unfold message_total, user_count, replies_posted.
  rewrite Husers, Hout, List.filter_app, length_app. simpl.
  repeat split; try done; lia.
Qed.

Lemma counts_serve bodies :
  let w := serve bodies init in
  message_total w = Z.of_nat (replies_posted w) ∧
  user_count w ≤ replies_posted w ∧
  replies_posted w ≤ length (completions w) ∧
  length (completions w) = commits w.
Proof.
  apply (invariant_serve
    (fun w => message_total w = Z.of_nat (replies_posted w) ∧
              user_count w ≤ replies_posted w ∧
              replies_posted w ≤ length (completions w) ∧
              length (completions w) = commits w)).
  - intros uid text w _ (Htotal & Hcount & Hreplies & Hcalls).
    destruct (counts_after_notice uid text w) as (-> & -> & -> & -> & ->). done.
  - intros u t w Hwf Hask (Htotal & Hcount & Hreplies & Hcalls).
    pose proof (counts_after_normal u t w Hwf Hask) as Hafter.
    destruct (normal_path u t w Hwf Hask)
      as (w' & Hrun & _ & _ & _ & Hcomp & _ & Hn & _).
    rewrite Hrun in *. simpl in *. rewrite Hcomp, Hn, length_app. simpl.
    destruct (session_commit (commits w)).
    + destruct Hafter as (-> & -> & ->).
      destruct (users w !! u); repeat split; lia.
    + destruct Hafter as (-> & -> & ->). repeat split; lia.
  - vm_compute. repeat split; lia.
Qed.


Lemma table_grows_refl w : table_grows w w.
Proof. intros u r Hr. exists r. repeat split; [done | lia]. Qed.

Lemma table_grows_trans w1 w2 w3 :
  table_grows w1 w2 → table_grows w2 w3 → table_grows w1 w3.
Proof.
  intros H12 H23 u r Hr.
  destruct (H12 u r Hr) as (r2 & Hr2 & Hat2 & Hn2).
  destruct (H23 u r2 Hr2) as (r3 & Hr3 & Hat3 & Hn3).
  exists r3. repeat split; [done | congruence | lia].
Qed.

Lemma table_grows_same w w' : users w' = users w → table_grows w w'.
Proof. intros Hu u r Hr. exists r. rewrite Hu. repeat split; [done | lia]. Qed.

Lemma table_grows_normal u t w :
  wf w → asks_for_human t = false →
  table_grows w (process_message (JStr u) (JStr t) w).2.
Proof.
  intros Hwf Hask.
  destruct (normal_path u t w Hwf Hask) as (w' & -> & _ & _ & _ & _ & Husers & _).
  simpl. rewrite log_conversation_table in Husers.
  destruct (session_commit (commits w)); [| by apply table_grows_same].
  intros x r Hr. rewrite Husers.
  destruct (decide (x = u)) as [-> | Hne].
  - eexists. rewrite lookup_insert_eq. split; [reflexivity |].
    rewrite Hr. simpl. split; [done |]. unfold count_of. simpl. lia.
  - exists r. rewrite lookup_insert_ne by done. repeat split; [done | lia].
Qed.

Lemma rows_counted_normal u t w :
  wf w → asks_for_human t = false → rows_counted w →
  rows_counted (process_message (JStr u) (JStr t) w).2.
Proof.
  intros Hwf Hask Hrows.
  destruct (normal_path u t w Hwf Hask) as (w' & -> & _ & _ & _ & _ & Husers & _).
  simpl. rewrite log_conversation_table in Husers.
  intros x r. rewrite Husers.
  destruct (session_commit (commits w)); [| apply Hrows].
  destruct (decide (x = u)) as [-> | Hne].
  - rewrite lookup_insert_eq. intros [= <-]. simpl. eexists. split; [reflexivity |].
    destruct (users w !! u) as [r0 |] eqn:Hr0; [| unfold count_of; simpl; lia].
    destruct (Hrows u r0 Hr0) as (n & Hn & Hle).
    unfold count_of. simpl. rewrite Hn. simpl. lia.
  - rewrite lookup_insert_ne by done. apply Hrows.
Qed.

Lemma serve_app bodies1 bodies2 w :
  serve (bodies1 ++ bodies2) w = serve bodies2 (serve bodies1 w).
Proof. unfold serve. apply fold_left_app. Qed.


(** ** What the completion step prints *)

Lemma completion_step_stdout msgs w :
  let resp := chat_completions_create (length (completions w)) msgs in
  stdout (try_except (resp <- create msgs ;; first_choice resp)
                     (fun _ w => (Ret fallback_reply, print OpenAIError w)) w).2
  = stdout w ++ match resp with
                | Completion (Some _ :: _) => []
                | _ => [OpenAIError]
                end.
Proof.
  intros resp. unfold try_except, bind, create. fold resp.
  destruct resp as [| [| [c |] rest]]; simpl; by rewrite ?app_nil_r.
Qed.

Lemma ask_gpt_stdout uid msg w :
  wf w →
  let resp := chat_completions_create (length (completions w))
                (system_prompt ::
                 deque_append CONTEXT_LIMIT (context_of w uid) (Turn "user" msg)) in
  stdout (ask_gpt uid msg w).2
  = stdout w ++ match resp with
                | Completion (Some _ :: _) => []
                | _ => [OpenAIError]
                end.
Proof.
  intros Hwf resp.
  destruct (update_context_spec uid "user" msg w Hwf)
    as (w1 & Hrun1 & Hwf1 & Hctx1 & _ & (_ & _ & Hc1 & Hs1 & _) & _).
  pose proof (get_context_spec uid w1 Hwf1) as Hrun2.
  set (l := fresh (dom (heap w1))) in Hrun2.
  set (w2 := set_heap (<[l := PyList (context_of w1 uid)]> (heap w1)) w1) in Hrun2.
  assert (Hrun3 : list_items l w2 = (Ret (context_of w1 uid), w2)).
  { unfold list_items, w2. simpl. by rewrite lookup_insert_eq. }
  pose proof (completion_step_stdout (system_prompt :: context_of w1 uid) w2) as Hprint.
  destruct (completion_step (system_prompt :: context_of w1 uid) w2)
    as (w3 & Hrun4 & Huc3 & Hheap3 & _).
  rewrite Hrun4 in Hprint. simpl in Hprint.
  assert (Hwf3 : wf w3) by (apply (wf_ext w2); [done | done | by apply alloc_list_wf]).
  destruct (update_context_spec uid "assistant"
              (reply_to (chat_completions_create (length (completions w2))
                           (system_prompt :: context_of w1 uid))) w3 Hwf3)
    as (w4 & Hrun5 & _ & _ & _ & (_ & _ & _ & Hs4 & _) & _).
  unfold ask_gpt.
  rewrite (bind_ret_step _ _ _ _ _ Hrun1).
  rewrite (bind_ret_step _ _ _ _ _ Hrun2).
  rewrite (bind_ret_step _ _ _ _ _ Hrun3).
  rewrite (bind_ret_step _ _ _ _ _ Hrun4).
  rewrite (bind_ret_step _ _ _ _ _ Hrun5). simpl.
  rewrite Hs4, Hprint. unfold resp, w2. simpl. by rewrite Hs1, Hc1, Hctx1.
Qed.

(** X5. When the response of the completion endpoint has a first
    choice with a content, [ask_gpt] returns that content stripped,
    whatever the other choices are, prints nothing, and stores the
    exchange, user text then stripped reply, in the user's context. In
    every other case it prints one error line. *)
Theorem ask_gpt_returns_the_stripped_first_choice (uid msg : string) (w : world) :
  wf w →
  let resp := chat_completions_create (length (completions w))
                (system_prompt ::
                 deque_append 10 (context_of w uid) (Turn "user" msg)) in
  (∀ c rest, resp = Completion (Some c :: rest) →
     ∃ w', ask_gpt uid msg w = (Ret (strip c), w') ∧
           stdout w' = stdout w ∧
           context_of w' uid =
             last_n 10 (context_of w uid ++
                        [Turn "user" msg; Turn "assistant" (strip c)])) ∧
  (failed resp → stdout (ask_gpt uid msg w).2 = stdout w ++ [OpenAIError]).
Proof.
  intros Hwf resp.
  pose proof (ask_gpt_stdout uid msg w Hwf) as Hprint.
  change CONTEXT_LIMIT with 10 in Hprint. fold resp in Hprint.
  split.
  - intros c rest Hresp.
    destruct (ask_gpt_spec uid msg w Hwf) as (w' & Hrun & _ & Hctx & _).
    change CONTEXT_LIMIT with 10 in Hrun, Hctx. fold resp in Hrun, Hctx.
    rewrite Hrun in Hprint. rewrite Hresp in *. simpl in *.
    exists w'. split; [done |]. split; [by rewrite Hprint, app_nil_r |].
    rewrite Hctx. apply (deque_append_twice CONTEXT_LIMIT).
    + unfold CONTEXT_LIMIT. lia.
    + by apply context_of_length.
  - intros Hfailed. rewrite Hprint. by destruct Hfailed.
Qed.

(** ** Consecutive messages, other users, failing storage *)

Lemma deque_append_window {A : Type} m (items : list A) x :
  0 < m → length items ≤ m → deque_append m items x = last_n m (items ++ [x]).
Proof.
  intros Hm Hle. rewrite <- (last_n_all m items Hle) at 1.
  by apply deque_append_last_n.
Qed.

(** X6. Two messages in a row from one user, in any state of the
    program: both calls of [ask_gpt] return, and the second completion
    call carries the first exchange, the first text and the reply it
    got, before the second text, within the window of ten turns. *)
Theorem next_call_carries_the_exchange (uid m1 m2 : string) (w : world) :
  wf w →
  ∃ r1 w1 r2 w2,
    ask_gpt uid m1 w = (Ret r1, w1) ∧
    ask_gpt uid m2 w1 = (Ret r2, w2) ∧
    completions w2 = completions w ++
      [system_prompt :: last_n 10 (context_of w uid ++ [Turn "user" m1]);
       system_prompt :: last_n 10 (context_of w uid ++
                                   [Turn "user" m1; Turn "assistant" r1;
                                    Turn "user" m2])].
Proof.
  intros Hwf.
  assert (Hm : 0 < CONTEXT_LIMIT) by (unfold CONTEXT_LIMIT; lia).
  pose proof (context_of_length w uid Hwf) as Hlen.
  destruct (ask_gpt_spec uid m1 w Hwf) as (w1 & Hrun1 & Hwf1 & Hctx1 & _ & Hcomp1 & _).
  destruct (ask_gpt_spec uid m2 w1 Hwf1) as (w2 & Hrun2 & _ & _ & _ & Hcomp2 & _).
  eexists _, w1, _, w2. split; [exact Hrun1 |]. split; [exact Hrun2 |].
  rewrite Hcomp2, Hcomp1, <- app_assoc. simpl. do 3 f_equal.
  - by rewrite deque_append_window.
  - f_equal. rewrite Hctx1.
    rewrite (deque_append_twice CONTEXT_LIMIT (context_of w uid)) by done.
    rewrite (deque_append_last_n CONTEXT_LIMIT) by done.
    by rewrite <- app_assoc.
Qed.

(** X7. Dispatching a message from one user, whatever its text (a
    string or not) and whether the dispatch returns or raises, leaves
    the context and the row of every other user as they were. *)
Theorem a_message_touches_only_its_sender (u u' : string) (text : json) (w : world) :
  wf w →
  u' ≠ u →
  context_of (process_message (JStr u) text w).2 u' = context_of w u' ∧
  users (process_message (JStr u) text w).2 !! u' = users w !! u'.
Proof.
  intros Hwf Hne. unfold process_message.
  destruct text as [| | | t | |]; try done.
  destruct (asks_for_human t) eqn:Hask.
  - destruct (send_message_spec (JStr u) human_support_notice [] w)
      as (w' & -> & (Huc & Hheap & Husers & _) & _).
    simpl. by rewrite (context_of_ext w w'), Husers.
  - pose proof (normal_path u t w Hwf Hask) as (w' & Hrun & _ & _ & Hother & _ & Husers & _).
    unfold process_message in Hrun. rewrite Hask in Hrun. rewrite Hrun. simpl.
    split; [by apply Hother |].
    rewrite Husers, log_conversation_table.
    destruct (session_commit (commits w)); [| done]. by rewrite lookup_insert_ne.
Qed.

(** X8. When the storage session fails on a normal message, the
    dispatcher raises before sending anything: no reply is posted and no
    row changes, although the completion call was made and the exchange,
    reply included, stays in the user's context. *)
Theorem storage_failure_loses_the_reply (u t : string) (w : world) :
  wf w →
  asks_for_human t = false →
  session_commit (commits w) = false →
  let msgs := system_prompt :: deque_append 10 (context_of w u) (Turn "user" t) in
  let reply := reply_to (chat_completions_create (length (completions w)) msgs) in
  ∃ w', process_message (JStr u) (JStr t) w = (Raise SQLAlchemyError, w') ∧
        outbox w' = outbox w ∧
        users w' = users w ∧
        completions w' = completions w ++ [msgs] ∧
        context_of w' u =
          last_n 10 (context_of w u ++ [Turn "user" t; Turn "assistant" reply]).
Proof.
  intros Hwf Hask Hko msgs reply.
  destruct (normal_path u t w Hwf Hask)
    as (w' & Hrun & _ & Hctx & _ & Hcomp & Husers & _ & Hout).
  rewrite log_conversation_table in Husers. rewrite Hko in *.
  exists w'. split; [done |]. split; [by rewrite Hout, app_nil_r |].
  by repeat split.
Qed.

(** ** Batches of events *)

Lemma for_each_app {A : Type} (body : A → M unit) xs ys w :
  for_each body (xs ++ ys) w = (for_each body xs ;;; for_each body ys) w.
Proof.
  revert w. induction xs as [| x xs IH]; intros w; simpl.
  - reflexivity.
  - unfold bind. destruct (body x w) as [[[] | e] w1]; [| done].
    rewrite IH. reflexivity.
Qed.

(** A request with one entry runs the events of that entry. *)
Lemma webhook_envelope events w :
  webhook (Some (envelope events)) w =
  (for_each handle_event events ;;; ret ok_response) w.
Proof.
  unfold webhook, envelope, handle_entry. simpl.
  repeat (unfold bind, ret; simpl).
  by destruct (for_each handle_event events w) as [[[] | e] w1].
Qed.

(** X9. Events are handled in order and an exception ends the
    request: when the events before a faulty one go through and the
    faulty one raises, the request raises that exception in the state
    the faulty event left, so what the earlier events did stays done
    and the later events are never looked at. *)
Theorem a_fault_drops_the_rest_of_the_batch
    (before after : list json) (bad : json) (e : exn) (w w1 w2 : world) :
  webhook (Some (envelope before)) w = (Ret ok_response, w1) →
  handle_event bad w1 = (Raise e, w2) →
  webhook (Some (envelope (before ++ bad :: after))) w = (Raise e, w2).
Proof.
  rewrite !webhook_envelope. intros Hbefore Hbad.
  unfold bind at 1. rewrite for_each_app. unfold bind at 1.
  unfold bind in Hbefore.
  destruct (for_each handle_event before w) as [[[] | e0] w0]; [| done].
  injection Hbefore as <-. simpl. unfold bind at 1. by rewrite Hbad.
Qed.

(** X10. One request carrying two batches of events does what two
    requests carrying one batch each do, when the first batch goes
    through. *)
Theorem a_batch_is_a_sequence_of_requests
    (first second : list json) (w w1 : world) :
  webhook (Some (envelope first)) w = (Ret ok_response, w1) →
  webhook (Some (envelope (first ++ second))) w =
  webhook (Some (envelope second)) w1.
Proof.
  rewrite !webhook_envelope. intros Hfirst.
  unfold bind at 1. rewrite for_each_app. unfold bind at 1.
  unfold bind in Hfirst.
  destruct (for_each handle_event first w) as [[[] | e0] w0]; [| done].
  by injection Hfirst as <-.
Qed.

(** ** Requests and events with nothing to do *)

(** X11. An event that names no sender to answer is skipped without
    any effect, whatever its "message" is, a value that is not an
    object included: the message is only inspected once the sender id
    is known to be truthy. *)
Theorem event_without_sender_is_skipped (e : list (string * json)) (w : world) :
  no_usable_sender e = true →
  handle_event (JObj e) w = (Ret tt, w).
Proof.
  unfold no_usable_sender, handle_event, bind. simpl. intros Hsender.
  destruct (dict_get "sender" e) as [sender |]; simpl; [| done].
  destruct sender as [| | | | | s]; try discriminate. simpl.
  destruct (dict_get "id" s) as [uid |]; simpl; [| done].
  apply negb_true_iff in Hsender. by rewrite Hsender.
Qed.

(** X12. A post that carries no entry (no JSON document, a falsy
    document such as [{}], [[]] or [null], or an object without
    entries) is acknowledged and changes nothing. *)
Theorem empty_request_changes_nothing (body : option json) (w : world) :
  carries_nothing body = true →
  webhook body w = (Ret ok_response, w).
Proof.
  unfold carries_nothing, webhook. intros Hbody.
  destruct body as [v |]; [| done].
  destruct (truthy v) eqn:Hv; [| done]. simpl in Hbody.
  destruct v as [| | | | | d]; try discriminate.
  unfold bind. simpl.
  destruct (dict_get "entry" d) as [entries |]; simpl; [| done].
  destruct entries as [| | | | entries |]; try discriminate.
  by destruct entries.
Qed.

(** ** Start-up *)

Lemma unset_false v : unset v = false → ∃ s, v = Some s ∧ s ≠ "".
Proof.
  destruct v as [s |]; simpl; [| discriminate].
  intros Hs. exists s. split; [done |]. by apply String.eqb_neq.
Qed.

Lemma missing_spec getenv k :
  In k (missing getenv) ↔ In k required_vars ∧ unset (getenv k) = true.
Proof. apply filter_In. Qed.

(** What a successful start holds. *)
Lemma load_settings_values getenv cfg :
  load_settings getenv = inr cfg →
  (getenv "OPENAI_API_KEY" = Some (openai_api_key cfg) ∧ openai_api_key cfg ≠ "") ∧
  (getenv "PAGE_ACCESS_TOKEN" = Some (page_access_token cfg) ∧
   page_access_token cfg ≠ "") ∧
  (getenv "VERIFY_TOKEN" = Some (verify_token cfg) ∧ verify_token cfg ≠ "") ∧
  (getenv "ADMIN_PASSWORD" = Some (admin_password cfg) ∧ admin_password cfg ≠ "").
Proof.
  unfold load_settings. intros Hcfg.
  destruct (missing getenv) as [| k names] eqn:Hnone; [| discriminate].
  injection Hcfg as <-. simpl.
  assert (Hset : ∀ k, In k required_vars → ∃ s, getenv k = Some s ∧ s ≠ "").
  { intros k Hk. apply unset_false.
    destruct (unset (getenv k)) eqn:Hu; [| done].
    pose proof (proj2 (missing_spec getenv k) (conj Hk Hu)) as Hin.
    by rewrite Hnone in Hin. }
  repeat split;
    match goal with
    | |- context [getenv ?k] =>
        destruct (Hset k) as (s & -> & Hs); [simpl; auto 8 | done]
    end.
Qed.

(** X13. The module starts exactly when the four required variables
    are set and not empty, and then holds their values; when one of
    them is unset or empty the start fails with an error that names
    it. *)
Theorem startup_needs_every_setting (getenv : string → option string) :
  (∀ cfg, load_settings getenv = inr cfg →
     (getenv "OPENAI_API_KEY" = Some (openai_api_key cfg) ∧ openai_api_key cfg ≠ "") ∧
     (getenv "PAGE_ACCESS_TOKEN" = Some (page_access_token cfg) ∧
      page_access_token cfg ≠ "") ∧
     (getenv "VERIFY_TOKEN" = Some (verify_token cfg) ∧ verify_token cfg ≠ "") ∧
     (getenv "ADMIN_PASSWORD" = Some (admin_password cfg) ∧ admin_password cfg ≠ "")) ∧
  ((∀ k, In k required_vars → unset (getenv k) = false) →
   ∃ cfg, load_settings getenv = inr cfg) ∧
  (∀ k, In k required_vars → unset (getenv k) = true →
     ∃ names, load_settings getenv = inl (startup_error names) ∧ In k names).
Proof.
  split; [apply load_settings_values | split].
  - intros Hall. unfold load_settings.
    destruct (missing getenv) as [| k names] eqn:Hnone; [by eexists |].
    destruct (proj1 (missing_spec getenv k)) as [Hk Hu]; [rewrite Hnone; by left |].
    rewrite (Hall k Hk) in Hu. discriminate.
  - intros k Hk Hu. unfold load_settings.
    assert (Hin : In k (missing getenv)) by (by apply missing_spec).
    destruct (missing getenv) as [| k' names] eqn:Hnone; [done |].
    by exists (k' :: names).
Qed.


End App.

(** * The configured application *)

(** X14. With the settings of a successful start, a verification
    request that supplies no token or an empty one is answered 403
    "Invalid token", and a statistics request that supplies no password
    or an empty one is aborted with 403: the start-up check leaves no
    empty secret to match. *)
Theorem empty_secrets_are_refused
    (getenv : string → option string) (cfg : settings)
    (args : list (string * string)) (w : world) :
  load_settings getenv = inr cfg →
  (args_get "hub.verify_token" args = None ∨
   args_get "hub.verify_token" args = Some "" →
   verify_webhook (verify_token cfg) args = Response 403 (Text "Invalid token")) ∧
  (args_get "pwd" args = None ∨ args_get "pwd" args = Some "" →
   stats (admin_password cfg) args w = Aborted 403).
Proof.
  intros Hcfg.
  destruct (load_settings_values getenv cfg Hcfg) as (_ & _ & [_ Htoken] & [_ Hpwd]).
  split.
  - unfold verify_webhook. intros [-> | ->]; [done |].
    by destruct (String.eqb_spec "" (verify_token cfg)).
  - unfold stats. intros [-> | ->]; [done |].
    by destruct (String.eqb_spec "" (admin_password cfg)).
Qed.

(** * Refused posts *)

Section Refusals.

Variable PAGE_ACCESS_TOKEN : string.
Variable lower : string → string.
Variable strip : string → string.
Variable chat_completions_create : nat → list turn → completion.
Variable session_commit : nat → bool.
Variable utcnow : nat → Z.

(** Two send endpoints. *)
Variable post1 : nat → post → bool.
Variable post2 : nat → post → bool.

Lemma alike_ret {A : Type} (a : A) : alike (ret a) (ret a).
Proof. by intros w w' Hq. Qed.

Lemma alike_raise {A : Type} e : alike (@raise A e) (raise e).
Proof. by intros w w' Hq. Qed.

Lemma alike_bind {A B : Type} (m m' : M A) (k k' : A → M B) :
  alike m m' → (∀ a, alike (k a) (k' a)) → alike (bind m k) (bind m' k').
Proof.
  intros Hm Hk w w' Hq. unfold bind.
  destruct (Hm w w' Hq) as [Hr Hq1].
  destruct (m w) as [[a | e] w1], (m' w') as [[a' | e'] w1']; simpl in *;
    try discriminate.
  - injection Hr as <-. by apply Hk.
  - by injection Hr as <-.
Qed.

Lemma alike_try_except {A : Type} (m m' : M A) (h h' : exn → M A) :
  alike m m' → (∀ e, alike (h e) (h' e)) → alike (try_except m h) (try_except m' h').
Proof.
  intros Hm Hh w w' Hq. unfold try_except.
  destruct (Hm w w' Hq) as [Hr Hq1].
  destruct (m w) as [[a | e] w1], (m' w') as [[a' | e'] w1']; simpl in *;
    try discriminate.
  - by injection Hr as <-.
  - injection Hr as <-. by apply Hh.
Qed.

Lemma alike_for_each {A : Type} (body body' : A → M unit) xs :
  (∀ x, alike (body x) (body' x)) → alike (for_each body xs) (for_each body' xs).
Proof.
  intros Hbody. induction xs as [| x xs IH]; simpl.
  - apply alike_ret.
  - apply alike_bind; [apply Hbody | by intros _].
Qed.

(** A computation that reads and writes the state without looking at
    what was printed is like itself. *)
Ltac alike_direct :=
  intros [uc h us ob cs so n] [uc' h' us' ob' cs' so' n'] Hq;
  unfold quiet in Hq; simpl in Hq; injection Hq as -> -> -> -> -> ->.

Lemma alike_get_method v k d : alike (get_method v k d) (get_method v k d).
Proof. alike_direct. by destruct v. Qed.

Lemma alike_subscript v k : alike (subscript v k) (subscript v k).
Proof. alike_direct. destruct v; try done. simpl. by destruct (dict_get k fields). Qed.

Lemma alike_contains_op k v : alike (contains_op k v) (contains_op k v).
Proof. alike_direct. by destruct v. Qed.

Lemma alike_iterate v : alike (iterate v) (iterate v).
Proof. alike_direct. by destruct v. Qed.

Lemma alike_update_context uid r c :
  alike (update_context uid r c) (update_context uid r c).
Proof.
  unfold update_context. apply alike_bind.
  - alike_direct. unfold setdefault_deque. simpl. by destruct (uc' !! uid).
  - intros d. alike_direct. unfold append. simpl.
    by destruct (h' !! d) as [[] |].
Qed.

Lemma alike_get_context uid : alike (get_context uid) (get_context uid).
Proof.
  alike_direct. unfold get_context. simpl.
  destruct (uc' !! uid) as [d |]; [| done]. by destruct (h' !! d).
Qed.

Lemma alike_list_items l : alike (list_items l) (list_items l).
Proof. alike_direct. unfold list_items. simpl. by destruct (h' !! l). Qed.

Lemma alike_log_conversation uid :
  alike (log_conversation session_commit utcnow uid)
        (log_conversation session_commit utcnow uid).
Proof. alike_direct. unfold log_conversation. simpl. by destruct (session_commit n'). Qed.

(** The two endpoints may answer differently: the post is recorded
    and the send returns all the same. *)
Lemma alike_send_message uid text qrs :
  alike (send_message PAGE_ACCESS_TOKEN post1 uid text qrs)
        (send_message PAGE_ACCESS_TOKEN post2 uid text qrs).
Proof.
  alike_direct. unfold send_message, try_except, do_post. simpl.
  by destruct (post1 _ _), (post2 _ _).
Qed.

Lemma alike_ask_gpt uid msg :
  alike (ask_gpt strip chat_completions_create uid msg)
        (ask_gpt strip chat_completions_create uid msg).
Proof.
  unfold ask_gpt.
  apply alike_bind; [apply alike_update_context | intros _].
  apply alike_bind; [apply alike_get_context | intros ctx].
  apply alike_bind; [apply alike_list_items | intros items].
  apply alike_bind; [| intros reply].
  - apply alike_try_except.
    + apply alike_bind.
      * alike_direct. by unfold create.
      * intros resp. destruct resp as [| [| [c |] rest]];
          (apply alike_ret || apply alike_raise).
    + intros _. by alike_direct.
  - apply alike_bind; [apply alike_update_context | intros _; apply alike_ret].
Qed.

Lemma alike_process_message uid text :
  alike (process_message PAGE_ACCESS_TOKEN lower strip chat_completions_create
           post1 session_commit utcnow uid text)
        (process_message PAGE_ACCESS_TOKEN lower strip chat_completions_create
           post2 session_commit utcnow uid text).
Proof.
  unfold process_message.
  destruct text as [| | | t | |]; try apply alike_raise.
  destruct (asks_for_human lower t); [apply alike_send_message |].
  destruct uid as [| | | u | |]; try apply alike_raise.
  apply alike_bind; [apply alike_ask_gpt | intros reply].
  apply alike_bind; [apply alike_log_conversation | intros _].
  apply alike_send_message.
Qed.

Lemma alike_handle_event ev :
  alike (handle_event PAGE_ACCESS_TOKEN lower strip chat_completions_create
           post1 session_commit utcnow ev)
        (handle_event PAGE_ACCESS_TOKEN lower strip chat_completions_create
           post2 session_commit utcnow ev).
Proof.
  unfold handle_event.
  do 3 (apply alike_bind; [apply alike_get_method | intros ?]).
  apply alike_bind.
  { destruct (truthy _); [apply alike_contains_op | apply alike_ret]. }
  intros [|]; [| apply alike_ret].
  apply alike_bind; [apply alike_get_method | intros quick].
  destruct (truthy quick).
  - do 2 (apply alike_bind; [apply alike_subscript | intros ?]).
    repeat (match goal with |- context [eq_str ?p ?s] => destruct (eq_str p s) end);
      try apply alike_ret; apply alike_send_message.
  - apply alike_bind; [apply alike_subscript | intros text].
    apply alike_process_message.
Qed.

Lemma alike_webhook body :
  alike (webhook PAGE_ACCESS_TOKEN lower strip chat_completions_create
           post1 session_commit utcnow body)
        (webhook PAGE_ACCESS_TOKEN lower strip chat_completions_create
           post2 session_commit utcnow body).
Proof.
  unfold webhook.
  apply alike_bind; [apply alike_get_method | intros entries].
  apply alike_bind; [apply alike_iterate | intros entries'].
  apply alike_bind; [| intros _; apply alike_ret].
  apply alike_for_each. intros entry. unfold handle_entry.
  apply alike_bind; [apply alike_get_method | intros evs].
  apply alike_bind; [apply alike_iterate | intros evs'].
  apply alike_for_each, alike_handle_event.
Qed.


End Refusals.

(** * Instances

    Each statement above that has hypotheses is applied here to a
    concrete state and a concrete outside world; the claims the code
    does not meet are refuted on concrete inputs. *)

(** Twelve appends for one user, two for another: the first keeps its
    last ten turns in order, the second its two. *)
Example twelve_appends :
  let calls :=
    [("1001", "user", "t1"); ("1001", "assistant", "t2"); ("2002", "user", "a");
     ("1001", "user", "t3"); ("1001", "assistant", "t4"); ("1001", "user", "t5");
     ("1001", "assistant", "t6"); ("2002", "assistant", "b"); ("1001", "user", "t7");
     ("1001", "assistant", "t8"); ("1001", "user", "t9"); ("1001", "assistant", "t10");
     ("1001", "user", "t11"); ("1001", "assistant", "t12")] in
  let w := (appends calls init).2 in
  map content (context_of w "1001") =
    ["t3"; "t4"; "t5"; "t6"; "t7"; "t8"; "t9"; "t10"; "t11"; "t12"] ∧
  map content (context_of w "2002") = ["a"; "b"].
Proof. vm_compute. by split. Qed.

(** One normal message through the whole handler: the reply is the
    stripped content of the first choice, sent with the two options,
    and the context holds the exchange. *)
Example one_message :
  let w := (webhook "page-token" ascii_lower ascii_strip echo_completions accepted_posts
              working_session epoch (Some (envelope [text_event "1001" "Hello"])) init).2 in
  outbox w = [Post "page-token" "RESPONSE" (JStr "1001") "ok" reply_options] ∧
  context_of w "1001" = [Turn "user" "Hello"; Turn "assistant" "ok"] ∧
  completions w = [[system_prompt; Turn "user" "Hello"]] ∧
  counter_of w "1001" = Some 1%Z.
Proof. vm_compute. by repeat split. Qed.

Example verification_accepted :
  verify_webhook "secret"
    [("hub.mode", "subscribe"); ("hub.verify_token", "secret");
     ("hub.challenge", "1158201444")]
  = Response 200 (Text "1158201444").
Proof. reflexivity. Qed.

Example verification_refused :
  verify_webhook "secret" [("hub.verify_token", "guess"); ("hub.challenge", "1158201444")]
  = Response 403 (Text "Invalid token") ∧
  verify_webhook "secret" [("hub.challenge", "1158201444")]
  = Response 403 (Text "Invalid token").
Proof. by split. Qed.

Lemma wf_talking : wf talking.
Proof. unfold talking. apply appends_wf, wf_init. Qed.

(** C2 on the conversation of user "1001". *)
Lemma get_context_snapshot_witness :
  wf talking ∧
  ∃ l w',
    get_context "1001" talking = (Ret l, w') ∧
    heap talking !! l = None ∧
    heap w' !! l = Some (PyList (context_of talking "1001")) ∧
    (user_contexts talking !! "1001" = None → heap w' !! l = Some (PyList [])) ∧
    user_contexts w' = user_contexts talking ∧
    (∀ l' o, heap talking !! l' = Some o → heap w' !! l' = Some o) ∧
    (∀ u, context_of w' u = context_of talking u) ∧
    same_io talking w' ∧
    ∀ r c, ∃ w'', update_context "1001" r c w' = (Ret tt, w'') ∧
                  heap w'' !! l = Some (PyList (context_of talking "1001")).
Proof.
  split; [exact wf_talking |].
  exact (proj2 (get_context_snapshot "1001") talking wf_talking).
Defined.

(** C3 on a text with a trigger phrase between upper-case words. *)
Lemma trigger_phrase_witness :
  In "موظف" triggers ∧
  ascii_lower "I need موظف NOW" = ("i need " ++ "موظف" ++ " now")%string ∧
  ∃ w',
    process_message "page-token" ascii_lower ascii_strip echo_completions
      refused_posts working_session epoch (JStr "1001") (JStr "I need موظف NOW") talking
    = (Ret tt, w') ∧
    outbox w' = outbox talking ++ [notice "page-token" (JStr "1001") human_support_notice] ∧
    completions w' = completions talking ∧
    user_contexts w' = user_contexts talking ∧ heap w' = heap talking ∧
    (∀ u, context_of w' u = context_of talking u) ∧
    users w' = users talking ∧
    (∀ u, counter_of w' u = counter_of talking u).
Proof.
  assert (Hin : In "موظف" triggers) by (simpl; right; by left).
  assert (Hlow : ascii_lower "I need موظف NOW" = ("i need " ++ "موظف" ++ " now")%string)
    by (vm_compute; reflexivity).
  split; [exact Hin |]. split; [exact Hlow |].
  exact (trigger_phrase_goes_to_human_support "page-token" ascii_lower ascii_strip
           echo_completions refused_posts working_session epoch
           (JStr "1001") "I need موظف NOW" "موظف" "i need " " now" talking Hin Hlow).
Defined.

(** C4, as stated, on a quick reply without text: the payload is
    HUMAN_SUPPORT and the sender is known, yet the event is skipped and
    nothing is posted. *)
Lemma quick_reply_without_text_sends_nothing :
  handle_event "page-token" ascii_lower ascii_strip echo_completions accepted_posts
    working_session epoch (bare_quick_reply_event "1001" "HUMAN_SUPPORT") init
  = (Ret tt, init) ∧
  ¬ ∃ w',
      handle_event "page-token" ascii_lower ascii_strip echo_completions accepted_posts
        working_session epoch (bare_quick_reply_event "1001" "HUMAN_SUPPORT") init
      = (Ret tt, w') ∧
      outbox w' = outbox init ++ [notice "page-token" (JStr "1001") human_support_notice].
Proof.
  assert (Hrun :
    handle_event "page-token" ascii_lower ascii_strip echo_completions accepted_posts
      working_session epoch (bare_quick_reply_event "1001" "HUMAN_SUPPORT") init
    = (Ret tt, init)) by (vm_compute; reflexivity).
  split; [exact Hrun |].
  intros (w' & Hrun' & Hout). rewrite Hrun in Hrun'.
  injection Hrun' as <-. discriminate Hout.
Qed.

(** C4 as the code has it, on a quick reply that carries its text. *)
Lemma quick_reply_with_text_witness :
  let q := [("payload", JStr "HUMAN_SUPPORT")] in
  let m := [("text", JStr "دعم بشري"); ("quick_reply", JObj q)] in
  let s := [("id", JStr "1001")] in
  let e := [("sender", JObj s); ("message", JObj m)] in
  dict_get "sender" e = Some (JObj s) ∧ dict_get "id" s = Some (JStr "1001") ∧
  truthy (JStr "1001") = true ∧
  dict_get "message" e = Some (JObj m) ∧ dict_get "text" m = Some (JStr "دعم بشري") ∧
  dict_get "quick_reply" m = Some (JObj q) ∧
  dict_get "payload" q = Some (JStr "HUMAN_SUPPORT") ∧
  ∃ w',
    handle_event "page-token" ascii_lower ascii_strip echo_completions refused_posts
      working_session epoch (JObj e) talking = (Ret tt, w') ∧
    completions w' = completions talking ∧
    user_contexts w' = user_contexts talking ∧ heap w' = heap talking ∧
    users w' = users talking ∧ commits w' = commits talking ∧
    (JStr "HUMAN_SUPPORT" = JStr "HUMAN_SUPPORT" →
       outbox w' = outbox talking ++
                   [notice "page-token" (JStr "1001") human_support_notice]) ∧
    (JStr "HUMAN_SUPPORT" = JStr "SERVICE_INFO" →
       outbox w' = outbox talking ++
                   [notice "page-token" (JStr "1001") service_info_notice]) ∧
    (JStr "HUMAN_SUPPORT" ≠ JStr "HUMAN_SUPPORT" →
     JStr "HUMAN_SUPPORT" ≠ JStr "SERVICE_INFO" → w' = talking).
Proof.
  intros q m s e.
  do 7 (split; [reflexivity |]).
  exact (quick_reply_with_text "page-token" ascii_lower ascii_strip echo_completions
           refused_posts working_session epoch e s m q
           (JStr "1001") (JStr "دعم بشري") (JStr "HUMAN_SUPPORT") talking
           eq_refl eq_refl eq_refl eq_refl eq_refl eq_refl eq_refl).
Defined.

(** C5 with a client that raises and a send endpoint that refuses. *)
Lemma completion_failure_witness :
  wf talking ∧
  asks_for_human ascii_lower "hello again" = false ∧
  failed (failing_completions (length (completions talking))
            (system_prompt ::
             deque_append 10 (context_of talking "1001") (Turn "user" "hello again"))) ∧
  (∃ w1, ask_gpt ascii_strip failing_completions "1001" "hello again" talking
         = (Ret fallback_reply, w1)) ∧
  (working_session (commits talking) = true →
   ∃ w', process_message "page-token" ascii_lower ascii_strip failing_completions
           refused_posts working_session epoch (JStr "1001") (JStr "hello again") talking
         = (Ret tt, w') ∧
         outbox w' = outbox talking ++
           [Post "page-token" "RESPONSE" (JStr "1001") fallback_reply reply_options] ∧
         counter_of w' "1001" = Some (default 0 (counter_of talking "1001") + 1)%Z).
Proof.
  assert (Hask : asks_for_human ascii_lower "hello again" = false)
    by (vm_compute; reflexivity).
  assert (Hfailed : failed (failing_completions (length (completions talking))
            (system_prompt ::
             deque_append 10 (context_of talking "1001") (Turn "user" "hello again"))))
    by apply failed_raise.
  split; [exact wf_talking |]. split; [exact Hask |]. split; [exact Hfailed |].
  exact (completion_failure_is_absorbed "page-token" ascii_lower ascii_strip
           failing_completions refused_posts working_session epoch
           "1001" "hello again" talking wf_talking Hask Hfailed).
Defined.

(** C6 on the first message of a user, with a response whose content
    is null. *)
Lemma counter_goes_up_by_one_witness :
  working_session (commits talking) = true ∧
  (∃ w', log_conversation working_session epoch "1001" talking = (Ret tt, w') ∧
         counter_of w' "1001" = Some (default 0 (counter_of talking "1001") + 1)%Z ∧
         (users talking !! "1001" = None →
            users w' !! "1001" = Some (mkUser (epoch (commits talking)) (Some 1%Z))) ∧
         (∀ u', u' ≠ "1001" → users w' !! u' = users talking !! u')) ∧
  (wf talking → ∀ t, asks_for_human ascii_lower t = false →
   ∃ w', process_message "page-token" ascii_lower ascii_strip null_completions
           accepted_posts working_session epoch (JStr "1001") (JStr t) talking
         = (Ret tt, w') ∧
         counter_of w' "1001" = Some (default 0 (counter_of talking "1001") + 1)%Z ∧
         (users talking !! "1001" = None →
            users w' !! "1001" = Some (mkUser (epoch (commits talking)) (Some 1%Z))) ∧
         (∀ u', u' ≠ "1001" → users w' !! u' = users talking !! u')).
Proof.
  split; [reflexivity |].
  exact (counter_goes_up_by_one "page-token" ascii_lower ascii_strip null_completions
           accepted_posts working_session epoch "1001" talking eq_refl).
Defined.

(** C7, as stated, on a normal message while the storage session
    fails, and on a body that is a JSON array: the handler raises, so
    the response is not the acknowledgment. *)
Lemma webhook_faults :
  (webhook "page-token" ascii_lower ascii_strip echo_completions accepted_posts
     broken_session epoch (Some (envelope [text_event "1001" "hello"])) init).1
  = Raise SQLAlchemyError ∧
  (webhook "page-token" ascii_lower ascii_strip echo_completions accepted_posts
     working_session epoch (Some (JArr [JNum 1])) init).1
  = Raise AttributeError ∧
  ¬ ∃ w',
      webhook "page-token" ascii_lower ascii_strip echo_completions accepted_posts
        broken_session epoch (Some (envelope [text_event "1001" "hello"])) init
      = (Ret (Response 200 (Json (JObj [("status", JStr "ok")]))), w').
Proof.
  assert (Hrun :
    (webhook "page-token" ascii_lower ascii_strip echo_completions accepted_posts
       broken_session epoch (Some (envelope [text_event "1001" "hello"])) init).1
    = Raise SQLAlchemyError) by (vm_compute; reflexivity).
  split; [exact Hrun |]. split; [vm_compute; reflexivity |].
  intros (w' & Hrun'). rewrite Hrun' in Hrun. discriminate Hrun.
Qed.

(** C7 as the code has it, on a request with a normal message, a
    trigger phrase, two quick replies and a quick reply without text,
    while completions fail and posts are refused. *)
Lemma webhook_acknowledges_witness :
  let body := Some (envelope [text_event "1001" "hello";
                              text_event "2002" "موظف";
                              quick_reply_event "1001" "info" "SERVICE_INFO";
                              quick_reply_event "1001" "other" "SOMETHING_ELSE";
                              bare_quick_reply_event "1001" "HUMAN_SUPPORT"]) in
  wf talking ∧ body_ok body = true ∧ (∀ n, working_session n = true) ∧
  ∃ w', webhook "page-token" ascii_lower ascii_strip failing_completions refused_posts
          working_session epoch body talking
        = (Ret (Response 200 (Json (JObj [("status", JStr "ok")]))), w') ∧
        wf w'.
Proof.
  intros body.
  split; [exact wf_talking |]. split; [reflexivity |]. split; [reflexivity |].
  exact (webhook_acknowledges "page-token" ascii_lower ascii_strip failing_completions
           refused_posts working_session epoch body talking
           wf_talking eq_refl (fun n => eq_refl)).
Defined.

(** C9 on a quick reply with payload HUMAN_SUPPORT and no text. *)
Lemma message_without_text_witness :
  let m := [("quick_reply", JObj [("payload", JStr "HUMAN_SUPPORT")])] in
  let e := [("sender", JObj [("id", JStr "1001")]); ("message", JObj m)] in
  dict_get "message" e = Some (JObj m) ∧
  dict_get "text" m = None ∧
  (handle_event "page-token" ascii_lower ascii_strip echo_completions accepted_posts
     working_session epoch (JObj e) talking).2 = talking ∧
  (handle_event "page-token" ascii_lower ascii_strip echo_completions accepted_posts
     working_session epoch (JObj e) talking).1 =
    match dict_get "sender" e with
    | None | Some (JObj _) => Ret tt
    | Some _ => Raise AttributeError
    end.
Proof.
  intros m e.
  split; [reflexivity |]. split; [reflexivity |].
  exact (message_without_text_is_skipped "page-token" ascii_lower ascii_strip
           echo_completions accepted_posts working_session epoch e m talking
           eq_refl eq_refl).
Defined.

(** C10 on a conversation under way, with a client that raises. *)
Lemma ask_gpt_appends_two_turns_witness :
  let msgs := system_prompt ::
              deque_append 10 (context_of talking "1001") (Turn "user" "and now?") in
  let resp := failing_completions (length (completions talking)) msgs in
  wf talking ∧
  ∃ reply w',
    ask_gpt ascii_strip failing_completions "1001" "and now?" talking = (Ret reply, w') ∧
    completions w' = completions talking ++ [msgs] ∧
    context_of w' "1001" =
      last_n 10 (context_of talking "1001" ++
                 [Turn "user" "and now?"; Turn "assistant" reply]) ∧
    (failed resp → reply = fallback_reply) ∧
    (failed resp → ∀ msg2, ∃ reply2 w'' msgs2,
       ask_gpt ascii_strip failing_completions "1001" msg2 w' = (Ret reply2, w'') ∧
       completions w'' = completions w' ++ [msgs2] ∧
       In (Turn "assistant" fallback_reply) msgs2).
Proof.
  intros msgs resp.
  split; [exact wf_talking |].
  exact (ask_gpt_appends_two_turns ascii_strip failing_completions
           "1001" "and now?" talking wf_talking).
Defined.

(** * Instances of the further properties *)

(** The start with a complete and with an incomplete environment. *)
Example start_with_sample_env :
  load_settings sample_env = inr (Settings "sk-test" "page-token" "secret" "admin") ∧
  missing partial_env = ["VERIFY_TOKEN"; "ADMIN_PASSWORD"].
Proof. by split. Qed.

(** The statistics page after two users wrote three normal messages
    and one asked for a human. *)
Example stats_after_four_messages :
  let w := serve "page-token" ascii_lower ascii_strip echo_completions accepted_posts
             working_session epoch
             [Some (envelope [text_event "1001" "hello"; text_event "2002" "hi"]);
              Some (envelope [text_event "1001" "موظف"; text_event "1001" "again"])]
             init in
  stats "admin" [("pwd", "admin")] w = Page (stats_page 2 3) ∧
  stats "admin" [("pwd", "guess")] w = Aborted 403 ∧
  stats_page 2 3 = ("<h1>👤 المستخدمون: 2</h1><h2>📨 الرسائل: 3</h2>")%string.
Proof. vm_compute. by repeat split. Qed.

(** X5 with a response of two choices whose first content has blanks
    around it. *)
Lemma stripped_first_choice_witness :
  let oracle : nat → list turn → completion :=
    fun _ _ => Completion [Some "  fine  "; Some "ignored"] in
  let resp := oracle (length (completions talking))
                (system_prompt ::
                 deque_append 10 (context_of talking "1001") (Turn "user" "and now?")) in
  wf talking ∧
  (∀ c rest, resp = Completion (Some c :: rest) →
     ∃ w', ask_gpt ascii_strip oracle "1001" "and now?" talking
           = (Ret (ascii_strip c), w') ∧
           stdout w' = stdout talking ∧
           context_of w' "1001" =
             last_n 10 (context_of talking "1001" ++
                        [Turn "user" "and now?"; Turn "assistant" (ascii_strip c)])) ∧
  (failed resp →
   stdout (ask_gpt ascii_strip oracle "1001" "and now?" talking).2
   = stdout talking ++ [OpenAIError]).
Proof.
  intros oracle resp.
  split; [exact wf_talking |].
  exact (ask_gpt_returns_the_stripped_first_choice ascii_strip oracle
           "1001" "and now?" talking wf_talking).
Defined.

(** X6 on the conversation of user "1001". *)
Lemma next_call_witness :
  wf talking ∧
  ∃ r1 w1 r2 w2,
    ask_gpt ascii_strip echo_completions "1001" "first" talking = (Ret r1, w1) ∧
    ask_gpt ascii_strip echo_completions "1001" "second" w1 = (Ret r2, w2) ∧
    completions w2 = completions talking ++
      [system_prompt :: last_n 10 (context_of talking "1001" ++ [Turn "user" "first"]);
       system_prompt :: last_n 10 (context_of talking "1001" ++
                                   [Turn "user" "first"; Turn "assistant" r1;
                                    Turn "user" "second"])].
Proof.
  split; [exact wf_talking |].
  exact (next_call_carries_the_exchange ascii_strip echo_completions
           "1001" "first" "second" talking wf_talking).
Defined.

(** X7 on a message from "1001" seen from "2002", its text not a
    string. *)
Lemma only_its_sender_witness :
  wf talking ∧ "2002" ≠ "1001" ∧
  context_of (process_message "page-token" ascii_lower ascii_strip echo_completions
                accepted_posts working_session epoch (JStr "1001") (JNum 7) talking).2
             "2002"
  = context_of talking "2002" ∧
  users (process_message "page-token" ascii_lower ascii_strip echo_completions
           accepted_posts working_session epoch (JStr "1001") (JNum 7) talking).2
    !! "2002"
  = users talking !! "2002".
Proof.
  assert (Hne : "2002" ≠ "1001") by discriminate.
  split; [exact wf_talking |]. split; [exact Hne |].
  exact (a_message_touches_only_its_sender "page-token" ascii_lower ascii_strip
           echo_completions accepted_posts working_session epoch
           "1001" "2002" (JNum 7) talking wf_talking Hne).
Defined.

(** X8 with a session that always fails. *)
Lemma storage_failure_witness :
  let msgs := system_prompt ::
              deque_append 10 (context_of talking "1001") (Turn "user" "hello") in
  let reply := reply_to ascii_strip (echo_completions (length (completions talking)) msgs) in
  wf talking ∧
  asks_for_human ascii_lower "hello" = false ∧
  broken_session (commits talking) = false ∧
  ∃ w', process_message "page-token" ascii_lower ascii_strip echo_completions
          accepted_posts broken_session epoch (JStr "1001") (JStr "hello") talking
        = (Raise SQLAlchemyError, w') ∧
        outbox w' = outbox talking ∧
        users w' = users talking ∧
        completions w' = completions talking ++ [msgs] ∧
        context_of w' "1001" =
          last_n 10 (context_of talking "1001" ++
                     [Turn "user" "hello"; Turn "assistant" reply]).
Proof.
  intros msgs reply.
  assert (Hask : asks_for_human ascii_lower "hello" = false) by (vm_compute; reflexivity).
  split; [exact wf_talking |]. split; [exact Hask |]. split; [reflexivity |].
  exact (storage_failure_loses_the_reply "page-token" ascii_lower ascii_strip
           echo_completions accepted_posts broken_session epoch
           "1001" "hello" talking wf_talking Hask eq_refl).
Defined.

(** X9 on a batch whose second event is a number: the first message
    is answered, the third is never handled. *)
Lemma fault_in_a_batch_witness :
  let run := webhook "page-token" ascii_lower ascii_strip echo_completions accepted_posts
               working_session epoch in
  let w1 := (run (Some (envelope [text_event "1001" "hello"])) init).2 in
  run (Some (envelope [text_event "1001" "hello"])) init = (Ret ok_response, w1) ∧
  handle_event "page-token" ascii_lower ascii_strip echo_completions accepted_posts
    working_session epoch (JNum 5) w1 = (Raise AttributeError, w1) ∧
  run (Some (envelope ([text_event "1001" "hello"] ++
                       JNum 5 :: [text_event "2002" "hi"]))) init
  = (Raise AttributeError, w1).
Proof.
  intros run w1.
  assert (Hbefore : run (Some (envelope [text_event "1001" "hello"])) init
                    = (Ret ok_response, w1)) by (vm_compute; reflexivity).
  assert (Hbad : handle_event "page-token" ascii_lower ascii_strip echo_completions
                   accepted_posts working_session epoch (JNum 5) w1
                 = (Raise AttributeError, w1)) by reflexivity.
  split; [exact Hbefore |]. split; [exact Hbad |].
  exact (a_fault_drops_the_rest_of_the_batch "page-token" ascii_lower ascii_strip
           echo_completions accepted_posts working_session epoch
           [text_event "1001" "hello"] [text_event "2002" "hi"] (JNum 5)
           AttributeError init w1 w1 Hbefore Hbad).
Defined.

(** X10 on two messages from two users. *)
Lemma batch_as_requests_witness :
  let run := webhook "page-token" ascii_lower ascii_strip echo_completions accepted_posts
               working_session epoch in
  let w1 := (run (Some (envelope [text_event "1001" "hello"])) init).2 in
  run (Some (envelope [text_event "1001" "hello"])) init = (Ret ok_response, w1) ∧
  run (Some (envelope ([text_event "1001" "hello"] ++ [text_event "2002" "hi"]))) init
  = run (Some (envelope [text_event "2002" "hi"])) w1.
Proof.
  intros run w1.
  assert (Hfirst : run (Some (envelope [text_event "1001" "hello"])) init
                   = (Ret ok_response, w1)) by (vm_compute; reflexivity).
  split; [exact Hfirst |].
  exact (a_batch_is_a_sequence_of_requests "page-token" ascii_lower ascii_strip
           echo_completions accepted_posts working_session epoch
           [text_event "1001" "hello"] [text_event "2002" "hi"] init w1 Hfirst).
Defined.

(** X11 on an event with an empty sender id and a message that is a
    number. *)
Lemma event_without_sender_witness :
  let e := [("sender", JObj [("id", JStr "")]); ("message", JNum 3)] in
  no_usable_sender e = true ∧
  handle_event "page-token" ascii_lower ascii_strip echo_completions accepted_posts
    working_session epoch (JObj e) talking = (Ret tt, talking).
Proof.
  intros e. split; [reflexivity |].
  exact (event_without_sender_is_skipped "page-token" ascii_lower ascii_strip
           echo_completions accepted_posts working_session epoch e talking eq_refl).
Defined.

(** X12 on a post whose document is an empty array. *)
Lemma empty_request_witness :
  carries_nothing (Some (JArr [])) = true ∧
  webhook "page-token" ascii_lower ascii_strip echo_completions accepted_posts
    working_session epoch (Some (JArr [])) talking = (Ret ok_response, talking).
Proof.
  split; [reflexivity |].
  exact (empty_request_changes_nothing "page-token" ascii_lower ascii_strip
           echo_completions accepted_posts working_session epoch
           (Some (JArr [])) talking eq_refl).
Defined.

(** X14 with the settings of the sample environment. *)
Lemma empty_secrets_witness :
  let cfg := Settings "sk-test" "page-token" "secret" "admin" in
  let args := [("hub.verify_token", ""); ("hub.challenge", "1158201444")] in
  load_settings sample_env = inr cfg ∧
  (args_get "hub.verify_token" args = None ∨
   args_get "hub.verify_token" args = Some "" →
   verify_webhook (verify_token cfg) args = Response 403 (Text "Invalid token")) ∧
  (args_get "pwd" args = None ∨ args_get "pwd" args = Some "" →
   stats (admin_password cfg) args talking = Aborted 403).
Proof.
  intros cfg args. split; [reflexivity |].
  exact (empty_secrets_are_refused sample_env cfg args talking eq_refl).
Defined.
